(** * Step-size strategies of pyrl/agents/stepsizes.py

    A shallow embedding of the step-size algorithms and of the agent
    composer [genAdaptiveAgent].

    Numbers.  The source computes with numpy float64 values.  The code is
    embedded once, over an interface [Numeric] that lists the scalar
    operations the source uses.

    - [float]: Rocq's primitive binary64 numbers, on which the embedded
      code computes as numpy does, bit for bit, for [+ - * / sqrt abs] and
      the comparisons.  What is said about the numbers themselves is stated
      and proved on this instance; the facts it needs (the comparison
      laws, products with zero, [1 * x = x]) are derived from the IEEE 754
      specification of the primitive operations ([SpecFloat]).
    - Every instance: where a statement only says which operations are
      applied to what and in which order, it is proved for every scalar
      type, binary64 included.
    - [xreal]: the real numbers extended with [+inf], [-inf] and [NaN],
      with exact finite arithmetic.  It is the arithmetic without
      rounding or overflow; it is used for statements about the order of
      parameters, which rounding does not change, and to show that a
      defect does not come from rounding.

    A division of two Python floats raises [ZeroDivisionError] on a zero
    divisor, where numpy, and the instances, give [inf] or [NaN].  The
    scalar divisions of the source ([GHS], [McClains], [STC], [1.0/tau],
    [lecun_gamma/lecun_alpha]) have a divisor that is not zero wherever a
    theorem below goes through them: the statements assume it.

    Arrays.  A numpy array is a [shape] and its row-major [data];
    [flatten], [ravel] and [reshape] keep the data.  Elementwise operations
    are only meant for operands of one shape, which is what every caller in
    the source passes (numpy raises or broadcasts otherwise).  [numpy.dot]
    adds the products from left to right.

    Objects.  A strategy instance ([self]) is a record holding the fields
    of the base agent that the strategy reads ([alpha], [gamma], [traces],
    [weights]) next to the strategy's own fields; a method returns the
    updated record together with its result. *)

From stdpp Require Import gmap strings.
From Stdlib Require Import Reals Lra Floats Uint63 ZArith Lia.

Set Default Proof Using "Type".

(** ** Scalars *)

Declare Scope num_scope.
Delimit Scope num_scope with num.

Class Numeric (F : Type) := {
  of_Z : Z -> F;
  nadd : F -> F -> F;
  nsub : F -> F -> F;
  nmul : F -> F -> F;
  ndiv : F -> F -> F;
  nneg : F -> F;
  nabs : F -> F;
  nsqrt : F -> F;
  nleb : F -> F -> bool;
  nltb : F -> F -> bool;
  neqb : F -> F -> bool;
  (** [numpy.maximum] and [numpy.minimum]: a NaN operand wins. *)
  nmax : F -> F -> F;
  nmin : F -> F -> F
}.

Infix "+" := nadd : num_scope.
Infix "-" := nsub : num_scope.
Infix "*" := nmul : num_scope.
Infix "/" := ndiv : num_scope.
Notation "- x" := (nneg x) : num_scope.
Infix "<=?" := nleb : num_scope.
Infix "<?" := nltb : num_scope.
Infix "=?" := neqb : num_scope.

(** A decimal literal of the source, [n / d] with both exactly
    representable: one correctly rounded division gives the binary64 value
    nearest to the decimal, which is what Python's parser produces. *)
Definition lit {F} `{Numeric F} (n d : Z) : F := (of_Z n / of_Z d)%num.

(** *** Extended reals

    Exact arithmetic on the reals, with the infinities and NaN of IEEE
    754.  It is not the arithmetic of the source: nothing is rounded and
    nothing overflows.  Only the statements on the order of two
    parameters (of McClains after [init_stepsize], of RProp and McClains
    after [randomize_parameters]) and the exact-arithmetic reading of the
    vSGD defect are stated on it; every other statement about numbers is
    on binary64, or holds for every instance. *)

Inductive xreal : Type :=
| Fin (r : R)
| PInf
| NInf
| NaN.

Definition Rleb (a b : R) : bool := if Rle_dec a b then true else false.
Definition Rltb (a b : R) : bool := if Rlt_dec a b then true else false.
Definition Reqb (a b : R) : bool := if Req_dec_T a b then true else false.

(** The infinity with the sign of [r]; [0 * inf] and [0 / 0] are NaN. *)
Definition inf_signed (r : R) : xreal :=
  if Rltb 0 r then PInf else if Rltb r 0 then NInf else NaN.

Definition xneg (x : xreal) : xreal :=
  match x with
  | Fin a => Fin (- a)
  | PInf => NInf
  | NInf => PInf
  | NaN => NaN
  end.

Definition xadd (x y : xreal) : xreal :=
  match x, y with
  | Fin a, Fin b => Fin (a + b)
  | NaN, _ | _, NaN => NaN
  | PInf, NInf | NInf, PInf => NaN
  | PInf, _ | _, PInf => PInf
  | NInf, _ | _, NInf => NInf
  end.

Definition xsub (x y : xreal) : xreal := xadd x (xneg y).

Definition xmul (x y : xreal) : xreal :=
  match x, y with
  | Fin a, Fin b => Fin (a * b)
  | NaN, _ | _, NaN => NaN
  | Fin a, PInf | PInf, Fin a => inf_signed a
  | Fin a, NInf | NInf, Fin a => inf_signed (- a)
  | PInf, PInf | NInf, NInf => PInf
  | PInf, NInf | NInf, PInf => NInf
  end.

Definition xdiv (x y : xreal) : xreal :=
  match x, y with
  | Fin a, Fin b => if Reqb b 0 then inf_signed a else Fin (a / b)
  | NaN, _ | _, NaN => NaN
  | Fin _, PInf | Fin _, NInf => Fin 0
  | PInf, Fin b => if Rltb b 0 then NInf else PInf
  | NInf, Fin b => if Rltb b 0 then PInf else NInf
  | _, _ => NaN
  end.

Definition xabs (x : xreal) : xreal :=
  match x with
  | Fin a => Fin (Rabs a)
  | PInf | NInf => PInf
  | NaN => NaN
  end.

Definition xsqrt (x : xreal) : xreal :=
  match x with
  | Fin a => if Rltb a 0 then NaN else Fin (R_sqrt.sqrt a)
  | PInf => PInf
  | NInf | NaN => NaN
  end.

Definition xexp (x : xreal) : xreal :=
  match x with
  | Fin a => Fin (Rtrigo_def.exp a)
  | PInf => PInf
  | NInf => Fin 0
  | NaN => NaN
  end.

Definition xleb (x y : xreal) : bool :=
  match x, y with
  | NaN, _ | _, NaN => false
  | Fin a, Fin b => Rleb a b
  | NInf, _ | _, PInf => true
  | _, _ => false
  end.

Definition xltb (x y : xreal) : bool :=
  match x, y with
  | NaN, _ | _, NaN => false
  | Fin a, Fin b => Rltb a b
  | PInf, _ | _, NInf => false
  | _, _ => true
  end.

Definition xeqb (x y : xreal) : bool :=
  match x, y with
  | Fin a, Fin b => Reqb a b
  | PInf, PInf | NInf, NInf => true
  | _, _ => false
  end.

Definition xmax (x y : xreal) : xreal :=
  match x, y with
  | NaN, _ | _, NaN => NaN
  | _, _ => if xleb x y then y else x
  end.

Definition xmin (x y : xreal) : xreal :=
  match x, y with
  | NaN, _ | _, NaN => NaN
  | _, _ => if xleb x y then x else y
  end.

#[export] Instance xreal_numeric : Numeric xreal := {|
  of_Z := fun z => Fin (IZR z);
  nadd := xadd; nsub := xsub; nmul := xmul; ndiv := xdiv;
  nneg := xneg; nabs := xabs; nsqrt := xsqrt;
  nleb := xleb; nltb := xltb; neqb := xeqb;
  nmax := xmax; nmin := xmin
|}.

(** *** binary64 *)

Definition float_of_Z (z : Z) : float :=
  match z with
  | Z0 => PrimFloat.zero
  | Zpos _ => PrimFloat.of_uint63 (Uint63.of_Z z)
  | Zneg p => PrimFloat.opp (PrimFloat.of_uint63 (Uint63.of_Z (Zpos p)))
  end.

Definition fmax (x y : float) : float :=
  if PrimFloat.is_nan x then x
  else if PrimFloat.is_nan y then y
  else if PrimFloat.leb x y then y else x.

Definition fmin (x y : float) : float :=
  if PrimFloat.is_nan x then x
  else if PrimFloat.is_nan y then y
  else if PrimFloat.leb x y then x else y.

#[export] Instance float_numeric : Numeric float := {|
  of_Z := float_of_Z;
  nadd := PrimFloat.add; nsub := PrimFloat.sub;
  nmul := PrimFloat.mul; ndiv := PrimFloat.div;
  nneg := PrimFloat.opp; nabs := PrimFloat.abs; nsqrt := PrimFloat.sqrt;
  nleb := PrimFloat.leb; nltb := PrimFloat.ltb; neqb := PrimFloat.eqb;
  nmax := fmax; nmin := fmin
|}.

(** [numpy.isfinite] on binary64. *)
Definition float_finite (x : float) : bool :=
  negb (PrimFloat.is_nan x) && negb (PrimFloat.is_infinity x).

Definition xfinite (x : xreal) : bool :=
  match x with Fin _ => true | _ => false end.

(** ** Arrays *)

Record ndarray (F : Type) : Type := NdArray {
  shape : list nat;
  data : list F
}.
Arguments NdArray {F} shape data.
Arguments shape {F} _.
Arguments data {F} _.

(** [numpy.prod] of a shape. *)
Definition size_of (sh : list nat) : nat := foldr Nat.mul 1%nat sh.

Section Arrays.
Context {F : Type} `{Numeric F}.
Local Open Scope num_scope.

Definition full (sh : list nat) (v : F) : ndarray F :=
  NdArray sh (replicate (size_of sh) v).
Definition zeros (sh : list nat) : ndarray F := full sh (of_Z 0).
Definition ones (sh : list nat) : ndarray F := full sh (of_Z 1).

Definition amap (f : F -> F) (a : ndarray F) : ndarray F :=
  NdArray (shape a) (map f (data a)).
Definition amap2 (f : F -> F -> F) (a b : ndarray F) : ndarray F :=
  NdArray (shape a) (zip_with f (data a) (data b)).

(** [a.fill(v)], [a.flatten()] / [a.ravel()], [a.reshape(sh)]. *)
Definition fill (a : ndarray F) (v : F) : ndarray F := amap (fun _ => v) a.
Definition flatten (a : ndarray F) : ndarray F :=
  NdArray [length (data a)] (data a).
Definition reshape (sh : list nat) (a : ndarray F) : ndarray F :=
  NdArray sh (data a).

(** [a * c], [c * a], [a / c] with a scalar [c]. *)
Definition ascale (a : ndarray F) (c : F) : ndarray F :=
  amap (fun x => x * c) a.
Definition scale (c : F) (a : ndarray F) : ndarray F :=
  amap (fun x => c * x) a.
Definition adivs (a : ndarray F) (c : F) : ndarray F :=
  amap (fun x => x / c) a.

Definition aadd := amap2 nadd.
Definition asub := amap2 nsub.
Definition amul := amap2 nmul.
Definition adiv := amap2 ndiv.
Definition aneg := amap nneg.
Definition aabs := amap nabs.
(** [a ** 2] *)
Definition asq := amap (fun x => x * x).

(** [numpy.dot] of two vectors. *)
Definition vdot (x y : list F) : F :=
  foldl nadd (of_Z 0) (zip_with nmul x y).
Definition dot (a b : ndarray F) : F := vdot (data a) (data b).

(** [numpy.linalg.norm] of a vector. *)
Definition norm (a : ndarray F) : F := nsqrt (dot a a).

(** [a[mask] = f(a[mask])], the mask given per entry. *)
Definition where_set (mask : list bool) (f : F -> F) (a : ndarray F)
  : ndarray F :=
  NdArray (shape a) (zip_with (fun (m : bool) x => if m then f x else x)
                              mask (data a)).
End Arrays.

(** ** Parameters *)

(** The [params] dictionary and [dict.setdefault]: the stored value when
    the key is present, else the default, which is then stored. *)
Definition setdefault {F} (k : string) (d : F) (m : gmap string F)
  : F * gmap string F :=
  match m !! k with
  | Some v => (v, m)
  | None => (d, <[k:=d]> m)
  end.

(** The fields of the base agent that the strategies read or write. *)
Record agent (F : Type) : Type := Agent {
  alpha : F;
  gamma : F;
  traces : ndarray F;
  weights : ndarray F
}.
Arguments Agent {F} alpha gamma traces weights.
Arguments alpha {F} _.
Arguments gamma {F} _.
Arguments traces {F} _.
Arguments weights {F} _.

Definition set_alpha {F} (a : agent F) (v : F) : agent F :=
  Agent v (gamma a) (traces a) (weights a).

(** ** The strategies *)

(** class AdaptiveStepSize, "Fixed StepSize" *)
Module AdaptiveStepSize.
Definition name : string := "Fixed StepSize".

Record self (F : Type) : Type := Self {
  base : agent F;
  step_sizes : ndarray F
}.
Arguments Self {F} base step_sizes.
Arguments base {F} _.
Arguments step_sizes {F} _.

Section Methods.
Context {F : Type} `{Numeric F}.

Definition init_stepsize (a : agent F) (weights_shape : list nat)
    (params : gmap string F) : self F * gmap string F :=
  (Self a (ascale (ones weights_shape) (alpha a)), params).

Definition rescale_update (s : self F)
    (phi_t phi_tp : ndarray F) (delta reward : F)
    (descent_direction : ndarray F) : self F * ndarray F :=
  (s, amul (step_sizes s) descent_direction).
End Methods.
End AdaptiveStepSize.

(** class GHS *)
Module GHS.
Definition name : string := "GHS".

Record self (F : Type) : Type := Self {
  base : agent F;
  step_sizes : ndarray F;
  last_update : ndarray F;
  ghs_param : F;
  ghs_counter : Z
}.
Arguments Self {F} base step_sizes last_update ghs_param ghs_counter.
Arguments base {F} _.
Arguments step_sizes {F} _.
Arguments last_update {F} _.
Arguments ghs_param {F} _.
Arguments ghs_counter {F} _.

Section Methods.
Context {F : Type} `{Numeric F}.
Local Open Scope num_scope.

Definition init_stepsize (a : agent F) (weights_shape : list nat)
    (params : gmap string F) : self F * gmap string F :=
  let '(ghs_a, params) := setdefault "ghs_a" (of_Z 10) params in
  (Self a (ascale (ones weights_shape) (alpha a))
        (zeros weights_shape) ghs_a 1, params).

(** The scalar that [rescale_update] fills [step_sizes] with. *)
Definition factor (s : self F) : F :=
  alpha (base s) * ghs_param s
  / (ghs_param s + of_Z (ghs_counter s) - of_Z 1).

Definition rescale_update (s : self F)
    (phi_t phi_tp : ndarray F) (delta reward : F)
    (descent_direction : ndarray F) : self F * ndarray F :=
  let step_sizes := fill (step_sizes s) (factor s) in
  let s := Self (base s) step_sizes (last_update s) (ghs_param s)
                (ghs_counter s + 1)%Z in
  (s, amul step_sizes descent_direction).
End Methods.
End GHS.

(** class McClains *)
Module McClains.
Definition name : string := "McClains".

Record self (F : Type) : Type := Self {
  base : agent F;
  step_sizes : ndarray F;
  mcclain_param : F
}.
Arguments Self {F} base step_sizes mcclain_param.
Arguments base {F} _.
Arguments step_sizes {F} _.
Arguments mcclain_param {F} _.

Section Methods.
Context {F : Type} `{Numeric F}.
Local Open Scope num_scope.

Definition init_stepsize (a : agent F) (weights_shape : list nat)
    (params : gmap string F) : self F * gmap string F :=
  let '(m, params) := setdefault "mcclain_a" (lit 1 100) params in
  let '(a, params) :=
    if alpha a <? m then
      let a0 := alpha a in
      let '(m, params) := setdefault "mcclain_a" (lit 1 100) params in
      (set_alpha a m, <["mcclain_a" := a0]> params)
    else (a, params) in
  let step_sizes := ascale (ones weights_shape) (alpha a) in
  let '(m, params) := setdefault "mcclain_a" (lit 1 100) params in
  (Self a step_sizes m, params).

Definition rescale_update (s : self F)
    (phi_t phi_tp : ndarray F) (delta reward : F)
    (descent_direction : ndarray F) : self F * ndarray F :=
  let a := alpha (base s) in
  let step_sizes := fill (step_sizes s) a in
  let a := a / (of_Z 1 + a - mcclain_param s) in
  (Self (set_alpha (base s) a) step_sizes (mcclain_param s),
   amul step_sizes descent_direction).
End Methods.
End McClains.

(** class STC *)
Module STC.
Definition name : string := "STC".

Record self (F : Type) : Type := Self {
  base : agent F;
  step_sizes : ndarray F;
  stc_a0 : F;
  stc_c : F;
  stc_N : F;
  stc_counter : Z
}.
Arguments Self {F} base step_sizes stc_a0 stc_c stc_N stc_counter.
Arguments base {F} _.
Arguments step_sizes {F} _.
Arguments stc_a0 {F} _.
Arguments stc_c {F} _.
Arguments stc_N {F} _.
Arguments stc_counter {F} _.

Section Methods.
Context {F : Type} `{Numeric F}.
Local Open Scope num_scope.

Definition init_stepsize (a : agent F) (weights_shape : list nat)
    (params : gmap string F) : self F * gmap string F :=
  let step_sizes := ascale (ones weights_shape) (alpha a) in
  let '(c, params) := setdefault "stc_c" (of_Z 1000000) params in
  let '(N, params) := setdefault "stc_N" (of_Z 500000) params in
  (Self a step_sizes (alpha a) c N 0, params).

(** [stc_counter**2] is an integer power; [stc_N**2] is the product
    [stc_N * stc_N]. *)
Definition rescale_update (s : self F)
    (phi_t phi_tp : ndarray F) (delta reward : F)
    (descent_direction : ndarray F) : self F * ndarray F :=
  let k := of_Z (stc_counter s) in
  let r := stc_c s * k / (stc_a0 s * stc_N s) in
  let a := alpha (base s) * (of_Z 1 + r) in
  let a := a / (of_Z 1 + r
                + stc_N s * of_Z (stc_counter s ^ 2)
                  / (stc_N s * stc_N s)) in
  let step_sizes := fill (step_sizes s) a in
  (Self (set_alpha (base s) a) step_sizes (stc_a0 s) (stc_c s) (stc_N s)
        (stc_counter s + 1)%Z,
   amul step_sizes descent_direction).
End Methods.
End STC.

(** class RProp *)
Module RProp.
Definition name : string := "RProp".

Record self (F : Type) : Type := Self {
  base : agent F;
  step_sizes : ndarray F;
  last_update : ndarray F;
  eta_low : F;
  eta_high : F
}.
Arguments Self {F} base step_sizes last_update eta_low eta_high.
Arguments base {F} _.
Arguments step_sizes {F} _.
Arguments last_update {F} _.
Arguments eta_low {F} _.
Arguments eta_high {F} _.

Section Methods.
Context {F : Type} `{Numeric F}.
Local Open Scope num_scope.

Definition init_stepsize (a : agent F) (weights_shape : list nat)
    (params : gmap string F) : self F * gmap string F :=
  let step_sizes := ascale (ones weights_shape) (alpha a) in
  let last_update := zeros weights_shape in
  let '(lo, params) := setdefault "rprop_eta_low" (lit 1 100) params in
  let '(hi, params) := setdefault "rprop_eta_high" (lit 12 10) params in
  (Self a step_sizes last_update lo hi, params).

(** [numpy.where(self.last_update * delta * self.traces <= 0)],
    as a mask. *)
Definition sign_changes (s : self F) (delta : F) : list bool :=
  map (fun x => x <=? of_Z 0)
      (data (amul (ascale (last_update s) delta) (traces (base s)))).

Definition rescale_update (s : self F)
    (phi_t phi_tp : ndarray F) (delta reward : F)
    (descent_direction : ndarray F) : self F * ndarray F :=
  let sc := sign_changes s delta in
  let step_sizes := fill (step_sizes s) (eta_high s) in
  let step_sizes := where_set sc (fun _ => eta_low s) step_sizes in
  (Self (base s) step_sizes (last_update s) (eta_low s) (eta_high s),
   amul step_sizes descent_direction).
End Methods.
End RProp.

(** class AlphaBounds *)
Module AlphaBounds.
Definition name : string := "AlphaBound".

Record self (F : Type) : Type := Self {
  base : agent F;
  step_sizes : ndarray F
}.
Arguments Self {F} base step_sizes.
Arguments base {F} _.
Arguments step_sizes {F} _.

Section Methods.
Context {F : Type} `{Numeric F}.
Local Open Scope num_scope.

Definition init_stepsize (a : agent F) (weights_shape : list nat)
    (params : gmap string F) : self F * gmap string F :=
  let a := set_alpha a (of_Z 1) in
  (Self a (ascale (ones weights_shape) (alpha a)), params).

Definition denomTerm (s : self F) (phi_t phi_tp : ndarray F) : F :=
  let deltaPhi := flatten (asub (scale (gamma (base s)) phi_tp) phi_t) in
  dot (flatten (traces (base s))) (flatten deltaPhi).

Definition rescale_update (s : self F)
    (phi_t phi_tp : ndarray F) (delta reward : F)
    (descent_direction : ndarray F) : self F * ndarray F :=
  let a := nmin (alpha (base s))
                (of_Z 1 / nabs (denomTerm s phi_t phi_tp)) in
  let step_sizes := fill (step_sizes s) a in
  (Self (set_alpha (base s) a) step_sizes,
   amul step_sizes descent_direction).
End Methods.
End AlphaBounds.

(** class AdagradDiagonal *)
Module AdagradDiagonal.
Definition name : string := "AdagradDiagonal".

Record self (F : Type) : Type := Self {
  base : agent F;
  step_sizes : ndarray F;
  h : ndarray F;
  adagrad_counter : F
}.
Arguments Self {F} base step_sizes h adagrad_counter.
Arguments base {F} _.
Arguments step_sizes {F} _.
Arguments h {F} _.
Arguments adagrad_counter {F} _.

Section Methods.
Context {F : Type} `{Numeric F}.
Local Open Scope num_scope.

Definition init_stepsize (a : agent F) (weights_shape : list nat)
    (params : gmap string F) : self F * gmap string F :=
  (Self a (ascale (ones weights_shape) (alpha a)) (zeros weights_shape)
        (of_Z 0), params).

Definition rescale_update (s : self F)
    (phi_t phi_tp : ndarray F) (delta reward : F)
    (descent_direction : ndarray F) : self F * ndarray F :=
  let counter := adagrad_counter s + of_Z 1 in
  let h := aadd (h s) (asq descent_direction) in
  let step_sizes :=
    if of_Z 1 <? counter then
      let step_sizes := fill (step_sizes s) (alpha (base s)) in
      NdArray (shape step_sizes)
        (zip_with (fun st hi =>
                     if negb (hi =? of_Z 0)
                     then st * (nsqrt counter / nsqrt hi) else st)
                  (data step_sizes) (data h))
    else step_sizes s in
  (Self (base s) step_sizes h counter,
   amul step_sizes descent_direction).
End Methods.
End AdagradDiagonal.

(** [numpy.exp], which only Autostep uses. *)
Class NumericExp (F : Type) := { nexp : F -> F }.

#[export] Instance xreal_exp : NumericExp xreal := {| nexp := xexp |}.

(** class Autostep *)
Module Autostep.
Definition name : string := "Autostep".

Record self (F : Type) : Type := Self {
  base : agent F;
  step_sizes : ndarray F;
  h : ndarray F;
  v : ndarray F;
  mu : F;
  tau : F
}.
Arguments Self {F} base step_sizes h v mu tau.
Arguments base {F} _.
Arguments step_sizes {F} _.
Arguments h {F} _.
Arguments v {F} _.
Arguments mu {F} _.
Arguments tau {F} _.

Section Methods.
Context {F : Type} `{Numeric F} `{NumericExp F}.
Local Open Scope num_scope.

Definition init_stepsize (a : agent F) (weights_shape : list nat)
    (params : gmap string F) : self F * gmap string F :=
  let step_sizes := ascale (ones weights_shape) (alpha a) in
  let h := zeros [size_of weights_shape] in
  let v := zeros [size_of weights_shape] in
  let '(mu, params) := setdefault "autostep_mu" (lit 1 100) params in
  let '(tau, params) := setdefault "autostep_tau" (of_Z 10000) params in
  (Self a step_sizes h v mu tau, params).

Definition rescale_update (s : self F)
    (phi_t phi_tp : ndarray F) (delta reward : F)
    (descent_direction : ndarray F) : self F * ndarray F :=
  let x := flatten phi_t in
  let deltaTerm := amul (scale delta x) (h s) in
  let alphas := flatten (step_sizes s) in
  let v :=
    amap2 nmax (aabs deltaTerm)
      (aadd (v s)
            (amul (amul (scale (of_Z 1 / tau s) alphas) (asq x))
                  (asub (aabs deltaTerm) (v s)))) in
  let alphas :=
    NdArray (shape alphas)
      (zip_with (fun al dv =>
                   if negb (snd dv =? of_Z 0)
                   then al * nexp (mu s * fst dv / snd dv) else al)
                (data alphas) (zip (data deltaTerm) (data v))) in
  let M := nmax (dot alphas (asq x)) (of_Z 1) in
  let step_sizes := reshape (shape (step_sizes s)) (adivs alphas M) in
  let plus_note :=
    amap (fun y => of_Z 1 - y) (amul (flatten step_sizes) (asq x)) in
  let h := aadd (amul (h s) plus_note)
                (amul (ascale (flatten step_sizes) delta) x) in
  (Self (base s) step_sizes h v (mu s) (tau s),
   amul step_sizes descent_direction).
End Methods.
End Autostep.

(** class AdagradFull.  [matrix.SMInv] (pyrl.misc.matrix) and
    [scipy.linalg.sqrtm] followed by [numpy.real] are not part of this
    file of the repository; they are parameters of the embedding. *)
Module AdagradFull.
Definition name : string := "AdagradFull".

Record self (F : Type) : Type := Self {
  base : agent F;
  step_sizes : ndarray F;
  h : list (list F);
  adagrad_counter : F
}.
Arguments Self {F} base step_sizes h adagrad_counter.
Arguments base {F} _.
Arguments step_sizes {F} _.
Arguments h {F} _.
Arguments adagrad_counter {F} _.

Section Methods.
Context {F : Type} `{Numeric F}.
Variable SMInv : list (list F) -> list F -> list F -> F -> list (list F).
Variable sqrtm_real : list (list F) -> list (list F).
Local Open Scope num_scope.

(** [numpy.eye(n) * c] *)
Definition eye_times (n : nat) (c : F) : list (list F) :=
  map (fun i => map (fun j => (if Nat.eqb i j then of_Z 1 else of_Z 0) * c)
                    (seq 0 n))
      (seq 0 n).

(** [numpy.dot] of a matrix and a vector. *)
Definition mdot (m : list (list F)) (x : list F) : list F :=
  map (fun row => vdot row x) m.

Definition init_stepsize (a : agent F) (weights_shape : list nat)
    (params : gmap string F) : self F * gmap string F :=
  let step_sizes := ascale (ones weights_shape) (alpha a) in
  let '(p, params) := setdefault "adagrad_precond" (lit 1 1000) params in
  (Self a step_sizes (eye_times (length (data step_sizes)) p) (of_Z 0),
   params).

Definition rescale_update (s : self F)
    (phi_t phi_tp : ndarray F) (delta reward : F)
    (descent_direction : ndarray F) : self F * ndarray F :=
  let counter := adagrad_counter s + of_Z 1 in
  let g := data (flatten descent_direction) in
  let h := SMInv (h s) g g (of_Z 1) in
  let descent_direction :=
    if of_Z 0 <? counter then
      let Hinv := sqrtm_real h in
      let d := mdot Hinv (data (flatten descent_direction)) in
      NdArray [length d] (map (fun y => y * nsqrt counter) d)
    else descent_direction in
  (Self (base s) (step_sizes s) h counter,
   amul (step_sizes s)
        (reshape (shape (step_sizes s)) descent_direction)).
End Methods.
End AdagradFull.

(** class AlmeidaAdaptive *)
Module AlmeidaAdaptive.
Definition name : string := "Almeida".

Record self (F : Type) : Type := Self {
  base : agent F;
  step_sizes : ndarray F;
  prev_grad : option (ndarray F);
  v : ndarray F;
  almeida_gamma : F;
  almeida_stepsize : F
}.
Arguments Self {F} base step_sizes prev_grad v almeida_gamma
  almeida_stepsize.
Arguments base {F} _.
Arguments step_sizes {F} _.
Arguments prev_grad {F} _.
Arguments v {F} _.
Arguments almeida_gamma {F} _.
Arguments almeida_stepsize {F} _.

Section Methods.
Context {F : Type} `{Numeric F}.
Local Open Scope num_scope.

Definition init_stepsize (a : agent F) (weights_shape : list nat)
    (params : gmap string F) : self F * gmap string F :=
  let step_sizes := ascale (ones weights_shape) (alpha a) in
  let v := ones [size_of weights_shape] in
  let '(g, params) := setdefault "almeida_gamma" (lit 999 1000) params in
  let '(lr, params) :=
    setdefault "almeida_stepsize" (lit 1 100000) params in
  (Self a step_sizes None v g lr, params).

Definition rescale_update (s : self F)
    (phi_t phi_tp : ndarray F) (delta reward : F)
    (descent_direction : ndarray F) : self F * ndarray F :=
  let v := ascale (v s) (almeida_gamma s) in
  let v := aadd v (scale (of_Z 1 - almeida_gamma s)
                         (flatten (asq descent_direction))) in
  let step_sizes :=
    match prev_grad s with
    | None => step_sizes s
    | Some prev =>
        let vbar := amap (fun y => if y =? of_Z 0 then of_Z 1 else y) v in
        let c := almeida_stepsize s * dot prev (flatten descent_direction) in
        amul (step_sizes s)
             (reshape (shape (step_sizes s))
                      (amap (fun y => of_Z 1 + c / y) vbar))
    end in
  (Self (base s) step_sizes (Some (flatten descent_direction)) v
        (almeida_gamma s) (almeida_stepsize s),
   amul step_sizes descent_direction).
End Methods.
End AlmeidaAdaptive.

(** class vSGD *)
Module vSGD.
Definition name : string := "vSGD".

Record self (F : Type) : Type := Self {
  base : agent F;
  step_sizes : ndarray F;
  g : ndarray F;
  v : ndarray F;
  h : ndarray F;
  t : ndarray F;
  slow_start : F
}.
Arguments Self {F} base step_sizes g v h t slow_start.
Arguments base {F} _.
Arguments step_sizes {F} _.
Arguments g {F} _.
Arguments v {F} _.
Arguments h {F} _.
Arguments t {F} _.
Arguments slow_start {F} _.

Section Methods.
Context {F : Type} `{Numeric F}.
Local Open Scope num_scope.

Definition init_stepsize (a : agent F) (weights_shape : list nat)
    (params : gmap string F) : self F * gmap string F :=
  let step_sizes := ascale (ones weights_shape) (alpha a) in
  let '(meta, params) := setdefault "vsgd_initmeta" (of_Z 100) params in
  let '(slow, params) := setdefault "vsgd_slowstart" (of_Z 50) params in
  (Self a step_sizes (zeros weights_shape) (zeros weights_shape)
        (zeros weights_shape) (ascale (ones weights_shape) meta) slow,
   params).

(** [1./self.t] and [-(1./self.t - 1.)] *)
Definition inv_t (s : self F) : ndarray F :=
  amap (fun y => of_Z 1 / y) (t s).
Definition decay (s : self F) : ndarray F :=
  amap (fun y => - (of_Z 1 / y - of_Z 1)) (t s).

Definition rescale_update (s : self F)
    (phi_t phi_tp : ndarray F) (delta reward : F)
    (descent_direction : ndarray F) : self F * ndarray F :=
  let est_hessian := asq (asub (scale (gamma (base s)) phi_tp) phi_t) in
  let g := amul (g s) (decay s) in
  let g := aadd g (amul (inv_t s) descent_direction) in
  let v := amul (v s) (decay s) in
  let v := aadd v (amul (inv_t s) (asq descent_direction)) in
  let h := amul (h s) (decay s) in
  let h := aadd h (amul (inv_t s) est_hessian) in
  let denom := amul h v in
  let denom := amap (fun y => if y =? of_Z 0 then of_Z 1 else y) denom in
  let step_sizes :=
    amap (fun y => nmin y (of_Z 1)) (adiv (asq g) denom) in
  let t :=
    if slow_start s <=? of_Z 0 then
      let c := amap (fun y => nmin (nmax (- (y - of_Z 1)) (lit 1 (10 ^ 15)))
                                   (of_Z 1))
                    (adiv (asq g) v) in
      amap (fun y => y + of_Z 1) (amul (t s) c)
    else t s in
  (Self (base s) step_sizes g v h t (slow_start s - of_Z 1),
   amul step_sizes descent_direction).
End Methods.
End vSGD.

(** class InvMaxEigen.  [numpy.random.normal(size=...)] is an input: the
    array that the call draws. *)
Module InvMaxEigen.
Definition name : string := "InvMaxEigen".

Record self (F : Type) : Type := Self {
  base : agent F;
  step_sizes : ndarray F;
  est_eigvector : ndarray F;
  lecun_gamma : F;
  lecun_alpha : F;
  stability_threshold : F
}.
Arguments Self {F} base step_sizes est_eigvector lecun_gamma lecun_alpha
  stability_threshold.
Arguments base {F} _.
Arguments step_sizes {F} _.
Arguments est_eigvector {F} _.
Arguments lecun_gamma {F} _.
Arguments lecun_alpha {F} _.
Arguments stability_threshold {F} _.

Section Methods.
Context {F : Type} `{Numeric F}.
Local Open Scope num_scope.

Definition init_stepsize (normal : ndarray F)
    (a : agent F) (weights_shape : list nat)
    (params : gmap string F) : self F * gmap string F :=
  let step_sizes := ascale (ones weights_shape) (alpha a) in
  let est := reshape weights_shape normal in
  let est := adivs est (norm (flatten est)) in
  let '(lg, params) := setdefault "lecun_gamma" (lit 1 100) params in
  let '(la, params) := setdefault "lecun_alpha" (lit 1 100) params in
  let '(th, params) := setdefault "lecun_threshold" (lit 1 1000) params in
  (Self a step_sizes est lg la th, params).

Definition rescale_update (normal : ndarray F) (s : self F)
    (phi_t phi_tp : ndarray F) (delta reward : F)
    (descent_direction : ndarray F) : self F * ndarray F :=
  let prevEigValue := norm (flatten (est_eigvector s)) in
  let perterb_weights :=
    aadd (weights (base s))
         (scale (lecun_alpha s) (adivs (est_eigvector s) prevEigValue)) in
  let perterbed_delta :=
    dot (flatten perterb_weights)
        (flatten (asub (scale (gamma (base s)) phi_tp) phi_t))
    + reward in
  let pert_gradient :=
    scale (- perterbed_delta)
          (asub phi_t (scale (gamma (base s)) phi_tp)) in
  let gradient := aneg descent_direction in
  let est := ascale (est_eigvector s) (of_Z 1 - lecun_gamma s) in
  let est := aadd est (scale (lecun_gamma s / lecun_alpha s)
                             (asub pert_gradient gradient)) in
  let update_ratio :=
    nabs (prevEigValue - norm (flatten est)) / prevEigValue in
  let '(step_sizes, est) :=
    if update_ratio <=? stability_threshold s then
      let step_sizes :=
        fill (step_sizes s) (of_Z 1 / norm (flatten est)) in
      let est := reshape (shape est) normal in
      (step_sizes, adivs est (norm (flatten est)))
    else (step_sizes s, est) in
  (Self (base s) step_sizes est (lecun_gamma s) (lecun_alpha s)
        (stability_threshold s),
   amul step_sizes descent_direction).
End Methods.
End InvMaxEigen.

(** ** The agent composer *)

(** What [randomize_parameters] reads and writes: the instance's
    [self.params] and [self.alpha], and numpy's random generator, given
    by the values its next calls return ([random()] and [randint(n)]) and
    the number of calls made so far. *)
Record world (F : Type) : Type := World {
  self_params : gmap string F;
  self_alpha : F;
  random : nat -> F;
  randint : nat -> Z -> Z;
  drawn : nat
}.
Arguments World {F} self_params self_alpha random randint drawn.
Arguments self_params {F} _.
Arguments self_alpha {F} _.
Arguments random {F} _.
Arguments randint {F} _.
Arguments drawn {F} _.

(** A class as the composer sees it: its [name] and its
    [randomize_parameters(self, **args)].  The keyword arguments reach the
    method as a dictionary of its own, so what it stores there is not seen
    by the caller. *)
Record pyclass (F : Type) : Type := PyClass {
  cls_name : string;
  randomize_parameters : gmap string F -> world F -> list F * world F
}.
Arguments PyClass {F} cls_name randomize_parameters.
Arguments cls_name {F} _.
Arguments randomize_parameters {F} _.

Section Composer.
Context {F : Type} `{Numeric F}.
Local Open Scope num_scope.

(** [numpy.random.random()] *)
Definition draw (w : world F) : F * world F :=
  (random w (drawn w),
   World (self_params w) (self_alpha w) (random w) (randint w)
         (S (drawn w))).
(** [numpy.random.randint(n)] *)
Definition draw_int (n : Z) (w : world F) : Z * world F :=
  (randint w (drawn w) n,
   World (self_params w) (self_alpha w) (random w) (randint w)
         (S (drawn w))).
(** [self.params[k] = args.setdefault(k, d)], giving the stored value *)
Definition resolve (k : string) (d : F) (args : gmap string F)
    (w : world F) : F * gmap string F * world F :=
  let '(x, args) := setdefault k d args in
  (x, args,
   World (<[k:=x]> (self_params w)) (self_alpha w) (random w) (randint w)
         (drawn w)).

Definition genAdaptiveAgent (stepsize_class agent_class : pyclass F)
  : pyclass F :=
  PyClass
    ("Adaptive (" +:+ cls_name stepsize_class +:+ ") "
                  +:+ cls_name agent_class)
    (fun args w =>
       let '(param_list, w) := randomize_parameters agent_class args w in
       let '(more, w) := randomize_parameters stepsize_class args w in
       (param_list ++ more, w)).

(** The strategies as classes.  AlphaBounds, AdagradFull and
    AdagradDiagonal inherit [randomize_parameters] from
    AdaptiveStepSize. *)
Definition no_parameters (args : gmap string F) (w : world F)
  : list F * world F := ([], w).

Definition Fixed_class : pyclass F :=
  PyClass AdaptiveStepSize.name no_parameters.
Definition AlphaBounds_class : pyclass F :=
  PyClass AlphaBounds.name no_parameters.
Definition AdagradFull_class : pyclass F :=
  PyClass AdagradFull.name no_parameters.
Definition AdagradDiagonal_class : pyclass F :=
  PyClass AdagradDiagonal.name no_parameters.

Definition GHS_class : pyclass F :=
  PyClass GHS.name
    (fun args w =>
       let '(r, w) := draw w in
       let '(a, args, w) := resolve "ghs_a" (r * of_Z 10000) args w in
       ([a], w)).

Definition McClains_class : pyclass F :=
  PyClass McClains.name
    (fun args w =>
       let '(r, w) := draw w in
       let '(a, args, w) := resolve "mcclain_a" (r * self_alpha w) args w in
       ([a], w)).

Definition STC_class : pyclass F :=
  PyClass STC.name
    (fun args w =>
       let '(r, w) := draw w in
       let '(c, args, w) :=
         resolve "stc_c" (r * of_Z (10 ^ 10)) args w in
       let '(r, w) := draw w in
       let '(N, args, w) := resolve "stc_N" (r * of_Z (10 ^ 6)) args w in
       ([c; N], w)).

Definition RProp_class : pyclass F :=
  PyClass RProp.name
    (fun args w =>
       let '(r, w) := draw w in
       let '(hi, args, w) := resolve "rprop_eta_high" (r * of_Z 2) args w in
       let '(r, w) := draw w in
       let '(lo, args, w) := resolve "rprop_eta_low" (r * hi) args w in
       ([lo; hi], w)).

Definition Autostep_class : pyclass F :=
  PyClass Autostep.name
    (fun args w =>
       let '(r, w) := draw w in
       let '(mu, args, w) := resolve "autostep_mu" r args w in
       let '(r, w) := draw w in
       let '(tau, args, w) :=
         resolve "autostep_tau" (r * of_Z (10 ^ 6)) args w in
       ([mu; tau], w)).

Definition Almeida_class : pyclass F :=
  PyClass AlmeidaAdaptive.name
    (fun args w =>
       let '(r, w) := draw w in
       let '(g, args, w) := resolve "almeida_gamma" r args w in
       let '(r, w) := draw w in
       let '(lr, args, w) := resolve "almeida_stepsize" r args w in
       ([g; lr], w)).

Definition vSGD_class : pyclass F :=
  PyClass vSGD.name
    (fun args w =>
       let '(n, w) := draw_int 500 w in
       let '(slow, args, w) := resolve "vsgd_slowstart" (of_Z n) args w in
       let '(n, w) := draw_int 1000 w in
       let '(meta, args, w) :=
         resolve "vsgd_initmeta" (of_Z (n + 10)) args w in
       ([slow; meta], w)).

Definition InvMaxEigen_class : pyclass F :=
  PyClass InvMaxEigen.name
    (fun args w =>
       let '(r, w) := draw w in
       let '(lg, args, w) := resolve "lecun_gamma" r args w in
       let '(r, w) := draw w in
       let '(la, args, w) := resolve "lecun_alpha" r args w in
       let '(r, w) := draw w in
       let '(th, args, w) :=
         resolve "lecun_threshold" (r * lit 1 10) args w in
       ([lg; la; th], w)).

Definition strategies : list (pyclass F) :=
  [Fixed_class; GHS_class; McClains_class; STC_class; RProp_class;
   Autostep_class; AlphaBounds_class; AdagradFull_class;
   AdagradDiagonal_class; Almeida_class; vSGD_class; InvMaxEigen_class].
End Composer.

(** ** Call sequences *)

(** The arguments of one [rescale_update] call. *)
Record inputs (F : Type) : Type := Inputs {
  phi_t : ndarray F;
  phi_tp : ndarray F;
  delta : F;
  reward : F;
  descent_direction : ndarray F
}.
Arguments Inputs {F} phi_t phi_tp delta reward descent_direction.
Arguments phi_t {F} _.
Arguments phi_tp {F} _.
Arguments delta {F} _.
Arguments reward {F} _.
Arguments descent_direction {F} _.

Definition call {F S : Type}
    (rescale_update :
       S -> ndarray F -> ndarray F -> F -> F -> ndarray F -> S * ndarray F)
    (s : S) (c : inputs F) : S * ndarray F :=
  rescale_update s (phi_t c) (phi_tp c) (delta c) (reward c)
                 (descent_direction c).

Section Runs.
Context {S C O : Type}.
Variable step : S -> C -> S * O.

(** Successive calls on one instance: the final state and the results
    in call order. *)
Fixpoint run (s : S) (cs : list C) : S * list O :=
  match cs with
  | [] => (s, [])
  | c :: cs =>
      let '(s, o) := step s c in
      let '(s, os) := run s cs in
      (s, o :: os)
  end.
End Runs.

(** An array of the given shape: inputs "shape-matched" to the weights. *)
Definition has_shape {F} (sh : list nat) (a : ndarray F) : Prop :=
  shape a = sh /\ length (data a) = size_of sh.

(** An array of real numbers, as an array of (finite) extended reals. *)
Definition lift (sh : list nat) (l : list R) : ndarray xreal :=
  NdArray sh (map Fin l).

(** ** Vocabulary of the statements *)

(** A divisor that is not zero (a NaN is not): the division does not
    raise on Python floats. *)
Definition nonzero {F} `{Numeric F} (x : F) : Prop :=
  neqb x (of_Z 0) = false.


Definition mcclains_divisor {F} `{Numeric F} (al a : F) : F :=
  (of_Z 1 + al - a)%num.



(** The scale [rescale_update] gives a component with last update [l]
    and trace [t]. *)
Definition rprop_scale {F : Type} `{Numeric F}
    (s : RProp.self F) (dl l t : F) : F :=
  if nleb (nmul (nmul l dl) t) (of_Z 0)
  then RProp.eta_low s else RProp.eta_high s.

(** The base agent writes its eligibility traces to [self.traces] between
    the calls. *)
Definition set_traces {F} (tr : ndarray F) (a : agent F) : agent F :=
  Agent (alpha a) (gamma a) tr (weights a).

(** One learning step with RProp: the agent stores its current traces and
    calls [rescale_update]; next to the result, the mask [sign_changes]
    that the call computes. *)
Definition rprop_step {F} `{Numeric F} (s : RProp.self F)
    (tc : ndarray F * inputs F) : RProp.self F * (list bool * ndarray F) :=
  let s := RProp.Self (set_traces (fst tc) (RProp.base s))
             (RProp.step_sizes s) (RProp.last_update s)
             (RProp.eta_low s) (RProp.eta_high s) in
  let '(s', out) := call RProp.rescale_update s (snd tc) in
  (s', (RProp.sign_changes s (delta (snd tc)), out)).

(** An array of binary64 numbers none of which is infinite or NaN. *)
Definition finite_farray (a : ndarray float) : Prop :=
  Forall (fun x => float_finite x = true) (data a).

(** A learning step of RProp whose traces and [delta] are finite, the
    traces and the descent direction of the weights' shape. *)
Definition rprop_call_ok (sh : list nat) (tc : ndarray float * inputs float)
  : Prop :=
  has_shape sh (fst tc) /\ finite_farray (fst tc)
  /\ float_finite (delta (snd tc)) = true
  /\ has_shape sh (descent_direction (snd tc)).

(** McClain's recurrence as the code computes it: the value of [alpha]
    after [n] calls, and the divisors of the first [n] calls. *)
Fixpoint mcclain_alpha {F} `{Numeric F} (al a : F) (n : nat) : F :=
  match n with
  | O => al
  | S n =>
      (mcclain_alpha al a n / mcclains_divisor (mcclain_alpha al a n) a)%num
  end.

Definition mcclain_divisors_ok {F} `{Numeric F} (al a : F) (n : nat) : Prop :=
  forall k, (k < n)%nat -> nonzero (mcclains_divisor (mcclain_alpha al a k) a).

(** One learning step with AlphaBounds: the agent stores its current
    traces and calls [rescale_update]; next to the result, the value of
    [self.alpha] after the call. *)
Definition alphabounds_step {F} `{Numeric F} (s : AlphaBounds.self F)
    (tc : ndarray F * inputs F) : AlphaBounds.self F * (F * ndarray F) :=
  let s := AlphaBounds.Self (set_traces (fst tc) (AlphaBounds.base s))
             (AlphaBounds.step_sizes s) in
  let '(s', out) := call AlphaBounds.rescale_update s (snd tc) in
  (s', (alpha (AlphaBounds.base s'), out)).

(** [1/|dot(traces, gamma*phi_tp - phi_t)|] of one learning step, and the
    values of [alpha] that successive steps leave when each takes the
    minimum of the [alpha] before and that bound. *)
Definition alphabounds_bound {F} `{Numeric F} (g : F)
    (tc : ndarray F * inputs F) : F :=
  (of_Z 1
   / nabs (dot (flatten (fst tc))
               (flatten (flatten (asub (scale g (phi_tp (snd tc)))
                                       (phi_t (snd tc)))))))%num.

Fixpoint alphabounds_alphas {F} `{Numeric F} (g a : F)
    (cs : list (ndarray F * inputs F)) : list F :=
  match cs with
  | [] => []
  | tc :: cs =>
      let a' := nmin a (alphabounds_bound g tc) in
      a' :: alphabounds_alphas g a' cs
  end.

(** A sequence of binary64 numbers that never rises: each value is a NaN
    or at most the one before it (the first at most [x]), so that no value
    exceeds the one before it. *)
Fixpoint never_above_from (x : float) (l : list float) : Prop :=
  match l with
  | [] => True
  | y :: l =>
      (PrimFloat.is_nan y = true \/ PrimFloat.leb y x = true)
      /\ PrimFloat.ltb x y = false
      /\ never_above_from y l
  end.

(** AdagradDiagonal: the step size that a call with counter [t > 1]
    stores for a component whose accumulator is [h] after the call. *)
Definition adagrad_size {F} `{Numeric F} (al t h : F) : F :=
  if negb (h =? of_Z 0)%num then (al * (nsqrt t / nsqrt h))%num else al.

(** Unfolds the scalar operations on extended reals, and nothing else. *)
Ltac xred :=
  cbn [of_Z nadd nsub nmul ndiv nneg nabs nsqrt nleb nltb neqb nmax nmin
       xreal_numeric xadd xsub xmul xdiv xneg xabs xsqrt xleb xltb xeqb
       xmax xmin].





(** Calls whose features and descent direction have the weights'
    shape. *)
Definition shaped_inputs {F} (sh : list nat) (c : inputs F) : Prop :=
  has_shape sh (phi_t c) /\ has_shape sh (phi_tp c)
  /\ has_shape sh (descent_direction c).

(** vSGD: the running averages and the meta rate have the weights'
    shape. *)
Definition vsgd_shapes {F} (sh : list nat) (s : vSGD.self F) : Prop :=
  has_shape sh (vSGD.g s) /\ has_shape sh (vSGD.v s)
  /\ has_shape sh (vSGD.h s) /\ has_shape sh (vSGD.t s).

(** The keys whose values [randomize_parameters] of each strategy
    returns, in the order of the returned list. *)
Definition strategy_keys {F} `{Numeric F}
  : list (pyclass F * list string) :=
  [(Fixed_class, []);
   (GHS_class, ["ghs_a"]);
   (McClains_class, ["mcclain_a"]);
   (STC_class, ["stc_c"; "stc_N"]);
   (RProp_class, ["rprop_eta_low"; "rprop_eta_high"]);
   (Autostep_class, ["autostep_mu"; "autostep_tau"]);
   (AlphaBounds_class, []);
   (AdagradFull_class, []);
   (AdagradDiagonal_class, []);
   (Almeida_class, ["almeida_gamma"; "almeida_stepsize"]);
   (vSGD_class, ["vsgd_slowstart"; "vsgd_initmeta"]);
   (InvMaxEigen_class, ["lecun_gamma"; "lecun_alpha"; "lecun_threshold"])].

(** What a [randomize_parameters] call with the keyword arguments [args]
    leaves, for a class returning the values of [keys]: the returned list
    is read from [self.params], a supplied argument is what is stored,
    and no other entry changes. *)
Definition honours_fixed {F} (c : pyclass F) (keys : list string) : Prop :=
  forall (args : gmap string F) (w : world F),
    let r := randomize_parameters c args w in
    map Some (fst r) = map (fun k => self_params (snd r) !! k) keys
    /\ (forall k v, k ∈ keys -> args !! k = Some v ->
                    self_params (snd r) !! k = Some v)
    /\ (forall k, k ∉ keys -> self_params (snd r) !! k = self_params w !! k).

(** The generator is advanced once per returned parameter, and
    [self.alpha] is left alone. *)
Definition draws_per_parameter {F} (c : pyclass F) : Prop :=
  forall (args : gmap string F) (w : world F),
    let r := randomize_parameters c args w in
    drawn (snd r) = (drawn w + length (fst r))%nat
    /\ self_alpha (snd r) = self_alpha w
    /\ random (snd r) = random w /\ randint (snd r) = randint w.

(** [numpy.random.random()] returns a number in the half-open interval
    from 0 to 1. *)
Definition unit_draws (w : world xreal) : Prop :=
  forall n, exists r, random w n = Fin r /\ (0 <= r < 1)%R.

(** ** Facts about the extended reals and arrays *)

Lemma Rleb_true a b : (a <= b)%R -> Rleb a b = true.
Proof. intros. unfold Rleb. destruct (Rle_dec a b); [done | lra]. Qed.
Lemma Rleb_false a b : (b < a)%R -> Rleb a b = false.
Proof. intros. unfold Rleb. destruct (Rle_dec a b); [lra | done]. Qed.
Lemma Rltb_true a b : (a < b)%R -> Rltb a b = true.
Proof. intros. unfold Rltb. destruct (Rlt_dec a b); [done | lra]. Qed.
Lemma Rltb_false a b : (b <= a)%R -> Rltb a b = false.
Proof. intros. unfold Rltb. destruct (Rlt_dec a b); [lra | done]. Qed.
Lemma Reqb_true a b : a = b -> Reqb a b = true.
Proof. intros. unfold Reqb. destruct (Req_dec_T a b); done. Qed.
Lemma Reqb_false a b : a <> b -> Reqb a b = false.
Proof. intros. unfold Reqb. destruct (Req_dec_T a b); done. Qed.

(** Decides the comparisons of concrete reals that a run leaves. *)
Ltac xdecide :=
  repeat (xred;
          match goal with
          | |- context [Reqb ?a ?b] =>
              first [rewrite (Reqb_true a b) by lra
                    |rewrite (Reqb_false a b) by lra]
          | |- context [Rltb ?a ?b] =>
              first [rewrite (Rltb_true a b) by lra
                    |rewrite (Rltb_false a b) by lra]
          | |- context [Rleb ?a ?b] =>
              first [rewrite (Rleb_true a b) by lra
                    |rewrite (Rleb_false a b) by lra]
          end).

Lemma xmul_1_l (x : xreal) : xmul (Fin 1) x = x.
Proof.
  destruct x; simpl; try done.
  - f_equal; lra.
  - unfold inf_signed. rewrite Rltb_true; [done | lra].
  - unfold inf_signed. rewrite Rltb_false, Rltb_true; [done | lra | lra].
Qed.

Lemma finite_inv (x : xreal) : xfinite x = true -> exists r, x = Fin r.
Proof. destruct x; simpl; try done. by eexists. Qed.

Lemma zip_with_replicate_l {A B C} (f : A -> B -> C) n a (l : list B) :
  length l = n -> zip_with f (replicate n a) l = map (f a) l.
Proof. intros <-. induction l; simpl; [done | by f_equal]. Qed.

Lemma map_replicate {A B} (f : A -> B) n a :
  map f (replicate n a) = replicate n (f a).
Proof. induction n; simpl; [done | by f_equal]. Qed.

Lemma map_const_replicate {A B} (b : B) (l : list A) :
  map (fun _ => b) l = replicate (length l) b.
Proof. induction l; simpl; [done | by f_equal]. Qed.

Lemma ones_times {F} `{Numeric F} (sh : list nat) (c : F) :
  ascale (ones sh) c = full sh (nmul (of_Z 1) c).
Proof. unfold ascale, amap, ones, full. simpl. by rewrite map_replicate. Qed.

Lemma ones_times_xreal (sh : list nat) (c : xreal) :
  ascale (ones sh) c = full sh c.
Proof. rewrite ones_times. f_equal. apply xmul_1_l. Qed.

Lemma amul_full {F} `{Numeric F} (sh : list nat) (d : ndarray F) (c : F) :
  has_shape sh d -> amul (full sh c) d = scale c d.
Proof.
  intros [Hs Hl]. unfold amul, amap2, full, scale, amap. simpl.
  rewrite Hs. f_equal. by apply zip_with_replicate_l.
Qed.

Lemma fill_full {F} `{Numeric F} (sh : list nat) (b c : F) :
  fill (full sh b) c = full sh c.
Proof.
  unfold fill, amap, full. simpl. f_equal.
  by rewrite map_const_replicate, length_replicate.
Qed.


(** ** Facts about binary64 *)

Lemma SFcompare_refl (x : spec_float) :
  x <> S754_nan -> SFcompare x x = Some Eq.
Proof.
  destruct x as [s|s| |s m e]; try done; intros _; cbn.
  - by destruct s.
  - rewrite Z.compare_refl, Pos.compare_cont_refl. by destruct s.
Qed.

Lemma SFcompare_antisym (x y : spec_float) :
  SFcompare y x = option_map CompOpp (SFcompare x y).
Proof.
  destruct x as [s|s| |s m e], y as [s'|s'| |s' m' e']; cbn;
    try done; try (by destruct s); try (by destruct s'); 
    try (by destruct s, s').
  rewrite (Z.compare_antisym e e').
  assert (E : PosDef.Pos.compare_cont Eq m' m
              = CompOpp (PosDef.Pos.compare_cont Eq m m'))
    by (symmetry; apply (Pos.compare_cont_antisym m m' Eq)).
  rewrite E.
  destruct s, s', (e ?= e')%Z, (PosDef.Pos.compare_cont Eq m m'); done.
Qed.

Lemma b64_is_nan (x : float) :
  PrimFloat.is_nan x
  = match Prim2SF x with S754_nan => true | _ => false end.
Proof.
  unfold PrimFloat.is_nan. rewrite FloatAxioms.eqb_spec. unfold SFeqb.
  destruct (Prim2SF x) eqn:E; try done; by rewrite SFcompare_refl.
Qed.

Lemma b64_is_zero (x : float) :
  PrimFloat.is_zero x
  = match Prim2SF x with S754_zero _ => true | _ => false end.
Proof.
  unfold PrimFloat.is_zero. rewrite FloatAxioms.eqb_spec.
  change (Prim2SF zero) with (S754_zero false). unfold SFeqb.
  destruct (Prim2SF x) as [s|s| |s m e]; try done; by destruct s.
Qed.

Lemma b64_is_infinity (x : float) :
  PrimFloat.is_infinity x
  = match Prim2SF x with S754_infinity _ => true | _ => false end.
Proof.
  unfold PrimFloat.is_infinity.
  rewrite FloatAxioms.eqb_spec, FloatAxioms.abs_spec.
  change (Prim2SF infinity) with (S754_infinity false). unfold SFeqb.
  destruct (Prim2SF x) as [s|s| |s m e]; done.
Qed.

Lemma b64_finite (x : float) :
  float_finite x
  = match Prim2SF x with
    | S754_zero _ | S754_finite _ _ _ => true
    | _ => false
    end.
Proof.
  unfold float_finite. rewrite b64_is_nan, b64_is_infinity.
  by destruct (Prim2SF x).
Qed.

Lemma b64_leb_refl (x : float) :
  PrimFloat.is_nan x = false -> PrimFloat.leb x x = true.
Proof.
  rewrite b64_is_nan, FloatAxioms.leb_spec. unfold SFleb. intros Hx.
  rewrite SFcompare_refl; [done|]. intros E. by rewrite E in Hx.
Qed.

Lemma b64_leb_total (x y : float) :
  PrimFloat.is_nan x = false -> PrimFloat.is_nan y = false ->
  PrimFloat.leb x y = false -> PrimFloat.leb y x = true.
Proof.
  rewrite !b64_is_nan, !FloatAxioms.leb_spec. unfold SFleb.
  rewrite (SFcompare_antisym (Prim2SF x) (Prim2SF y)).
  destruct (Prim2SF x) as [s|s| |s m e], (Prim2SF y) as [s'|s'| |s' m' e'];
    try done; intros _ _;
    match goal with |- context [SFcompare ?a ?b] =>
      destruct (SFcompare a b) as [[]|] eqn:E end; try done.
Qed.


Lemma b64_mul_zero_l (x z : float) :
  PrimFloat.is_zero z = true ->
  if float_finite x then PrimFloat.is_zero (z * x) = true
  else PrimFloat.is_nan (z * x) = true.
Proof.
  rewrite b64_finite, !b64_is_zero, b64_is_nan, FloatAxioms.mul_spec.
  unfold SF64mul.
  by destruct (Prim2SF x) as [s|s| |s m e], (Prim2SF z) as [s'|s'| |s' m' e'].
Qed.


Lemma b64_leb_zero (z : float) :
  PrimFloat.is_zero z = true -> PrimFloat.leb z 0 = true.
Proof.
  rewrite b64_is_zero, FloatAxioms.leb_spec.
  change (Prim2SF 0) with (S754_zero false).
  by destruct (Prim2SF z).
Qed.

Lemma b64_zero_finite (z : float) :
  PrimFloat.is_zero z = true -> float_finite z = true.
Proof. rewrite b64_is_zero, b64_finite. by destruct (Prim2SF z). Qed.

(** [1 * x] is [x]: the product of the mantissas is shifted back by the
    52 places that the mantissa of [1] adds. *)
Lemma shr_fexp_exact (m : positive) (e : Z) :
  canonical_mantissa prec emax m e = true ->
  shr_fexp prec emax (Zpos m) e loc_Exact
  = ({| shr_m := Zpos m; shr_r := false; shr_s := false |}, e).
Proof.
  unfold canonical_mantissa, shr_fexp. intros H%Z.eqb_eq.
  cbn [Zdigits2 shr_record_of_loc]. rewrite H, Z.sub_diag. done.
Qed.

Lemma digits2_pos_shift52 (m : positive) :
  Zpos (digits2_pos (Pos.mul 4503599627370496 m))
  = (Zpos (digits2_pos m) + 52)%Z.
Proof. cbv [Pos.mul digits2_pos]. fold digits2_pos. lia. Qed.

Lemma shr_fexp_shift52 (m : positive) (e : Z) :
  canonical_mantissa prec emax m e = true ->
  shr_fexp prec emax (Zpos (Pos.mul 4503599627370496 m)) (-52 + e) loc_Exact
  = ({| shr_m := Zpos m; shr_r := false; shr_s := false |}, e).
Proof.
  unfold canonical_mantissa, shr_fexp. intros H%Z.eqb_eq.
  cbn [Zdigits2 shr_record_of_loc]. rewrite digits2_pos_shift52.
  replace (Zpos (digits2_pos m) + 52 + (-52 + e))%Z
    with (Zpos (digits2_pos m) + e)%Z by lia.
  rewrite H. replace (e - (-52 + e))%Z with 52%Z by lia.
  unfold shr. replace (-52 + e + 52)%Z with e by lia.
  reflexivity.
Qed.

Lemma b64_mul_1_l (x : float) : (1 * x)%float = x.
Proof.
  apply Prim2SF_inj. rewrite FloatAxioms.mul_spec.
  change (Prim2SF 1) with (S754_finite false 4503599627370496 (-52)).
  pose proof (Prim2SF_valid x) as Hv.
  destruct (Prim2SF x) as [s|s| |s m e]; try done.
  unfold SF64mul, SFmul. cbn [xorb].
  cbn [valid_binary] in Hv. unfold bounded in Hv.
  apply andb_prop in Hv as [Hc He].
  unfold binary_round_aux.
  rewrite (shr_fexp_shift52 m e Hc).
  cbn [shr_m loc_of_shr_record round_nearest_even].
  rewrite (shr_fexp_exact m e Hc). cbn [shr_m].
  by rewrite He.
Qed.

(** ** Arrays of a given shape *)

Lemma has_shape_amap {F : Type} sh (f : F -> F) (a : ndarray F) :
  has_shape sh a -> has_shape sh (amap f a).
Proof.
  intros [Hs Hl]. split; [done|]. cbn [amap data]. by rewrite length_map.
Qed.

Lemma has_shape_amap2 {F : Type} sh (f : F -> F -> F) (a b : ndarray F) :
  has_shape sh a -> has_shape sh b -> has_shape sh (amap2 f a b).
Proof.
  intros [Hs Hl] [Hs' Hl']. split; [done|]. cbn [amap2 data].
  rewrite length_zip_with. lia.
Qed.


(** On binary64 [numpy.ones(shape) * alpha] holds [alpha] itself. *)
Lemma ones_times_b64 (sh : list nat) (c : float) :
  ascale (ones sh) c = full sh c.
Proof.
  rewrite ones_times. f_equal.
  change (nmul (of_Z 1) c) with (PrimFloat.mul 1 c). apply b64_mul_1_l.
Qed.

(** ** Fixed step size (AdaptiveStepSize) *)

Lemma fixed_call (a : agent float) sh params c :
  has_shape sh (descent_direction c) ->
  let s0 := fst (AdaptiveStepSize.init_stepsize a sh params) in
  call AdaptiveStepSize.rescale_update s0 c
  = (s0, scale (alpha a) (descent_direction c)).
Proof.
  intros Hd s0. unfold s0, call, AdaptiveStepSize.rescale_update,
    AdaptiveStepSize.init_stepsize.
  cbn [fst AdaptiveStepSize.step_sizes]. f_equal.
  rewrite ones_times_b64. by apply amul_full.
Qed.

(** On binary64 the run of the specification's scenario gives the doubles
    nearest to 0.1 and 0.2, but not the double nearest to 0.3: the
    product [0.1 * 3] is rounded to the double above it,
    0.30000000000000004. *)
Lemma fixed_example_not_exact :
  let z := NdArray [3%nat] [0; 0; 0]%float in
  let out :=
    snd (AdaptiveStepSize.rescale_update
           (fst (AdaptiveStepSize.init_stepsize
                   (Agent (lit 1 10) 1%float z z) [3%nat] ∅))
           z z 0%float 0%float (NdArray [3%nat] [1; 2; 3]%float)) in
  zip_with PrimFloat.eqb (data out) [lit 1 10; lit 2 10; lit 3 10]
  = [true; true; false]
  /\ data out <> [lit 1 10; lit 2 10; lit 3 10].
Proof.
  intros z out.
  assert (E : data out = [lit 1 10; lit 2 10; 0x1.3333333333334p-2%float])
    by (vm_compute; reflexivity).
  split; [vm_compute; reflexivity|].
  rewrite E. intros H.
  apply (f_equal (fun l => zip_with PrimFloat.eqb l
                             [lit 1 10; lit 2 10; lit 3 10])) in H.
  vm_compute in H. done.
Qed.

(** C9, amended. The Fixed strategy on binary64: every call on a descent
    direction of the weights' shape returns [alpha * descent_direction],
    each entry the product [alpha * d] rounded once, and leaves the
    instance as it was, over every call sequence. With
    weight shape (3,), [alpha = 0.1] and the direction [[1, 2, 3]] the
    entries are the doubles 0.1, 0.2 and 0.30000000000000004. *)
Theorem fixed_rescale_update (a : agent float) sh
    (params : gmap string float) cs :
  Forall (fun c => has_shape sh (descent_direction c)) cs ->
  let s0 := fst (AdaptiveStepSize.init_stepsize a sh params) in
  run (call AdaptiveStepSize.rescale_update) s0 cs
  = (s0, map (fun c => scale (alpha a) (descent_direction c)) cs)
  /\ (let z := NdArray [3%nat] [0; 0; 0]%float in
      snd (AdaptiveStepSize.rescale_update
             (fst (AdaptiveStepSize.init_stepsize
                     (Agent (lit 1 10) 1%float z z) [3%nat] ∅))
             z z 0%float 0%float (NdArray [3%nat] [1; 2; 3]%float))
      = NdArray [3%nat] [lit 1 10; lit 2 10; 0x1.3333333333334p-2%float]).
Proof.
  intros Hcs s0. split; [|vm_compute; reflexivity].
  induction Hcs as [|c cs Hc _ IH]; [done|].
  cbn [run map]. unfold s0 in *. rewrite (fixed_call a sh params c Hc).
  by rewrite IH.
Qed.

Lemma fixed_rescale_update_witness :
  let z := NdArray [3%nat] [0; 0; 0]%float in
  let c := fun x y w : float =>
    Inputs z z 0%float 0%float (NdArray [3%nat] [x; y; w]) in
  let a := Agent (lit 1 10) 1%float z z in
  let s0 := fst (AdaptiveStepSize.init_stepsize a [3%nat] ∅) in
  run (call AdaptiveStepSize.rescale_update) s0
      [c 1 2 3; c 4 5 6]%float
  = (s0, [scale (lit 1 10) (NdArray [3%nat] [1; 2; 3]%float);
          scale (lit 1 10) (NdArray [3%nat] [4; 5; 6]%float)]).
Proof.
  intros z c a s0.
  refine (proj1 (fixed_rescale_update a [3%nat] ∅ [c 1 2 3; c 4 5 6]%float
                   _)).
  repeat constructor.
Defined.

(** ** GHS *)







(** ** RProp *)

Lemma rprop_step_sizes {F : Type} `{Numeric F}
    (s : RProp.self F) p p' dl r d :
  length (data (RProp.step_sizes s))
  = length (data (RProp.last_update s)) ->
  length (data (traces (RProp.base s)))
  = length (data (RProp.last_update s)) ->
  data (RProp.step_sizes (fst (RProp.rescale_update s p p' dl r d)))
  = zip_with (rprop_scale s dl) (data (RProp.last_update s))
             (data (traces (RProp.base s))).
Proof.
  unfold RProp.rescale_update, RProp.sign_changes, rprop_scale.
  unfold where_set, fill, amul, ascale, amap, amap2. simpl.
  generalize (data (RProp.step_sizes s)) (data (RProp.last_update s))
             (data (traces (RProp.base s))).
  intros ss. induction ss as [|x ss IH]; intros [|l lu] [|t tr] Hl Ht;
    simpl in *; try done.
  f_equal. apply IH; lia.
Qed.

Lemma rprop_result {F : Type} `{Numeric F}
    (s : RProp.self F) p p' dl r d :
  snd (RProp.rescale_update s p p' dl r d)
  = amul (RProp.step_sizes (fst (RProp.rescale_update s p p' dl r d))) d.
Proof. done. Qed.

(** C5. RProp: on every call, a component [i] with
    [last_update[i] * delta * traces[i] <= 0] gets the step size
    [eta_low], every other component gets [eta_high], and the result at
    [i] is that step size times [descent_direction[i]]. Holds on every
    scalar type, binary64 included. *)
Theorem rprop_componentwise {F : Type} `{Numeric F}
    (s : RProp.self F) p p' dl r d (i : nat) (l t x : F) :
  length (data (RProp.step_sizes s)) = length (data (RProp.last_update s)) ->
  length (data (traces (RProp.base s)))
  = length (data (RProp.last_update s)) ->
  data (RProp.last_update s) !! i = Some l ->
  data (traces (RProp.base s)) !! i = Some t ->
  data d !! i = Some x ->
  let scale_i :=
    if nleb (nmul (nmul l dl) t) (of_Z 0)
    then RProp.eta_low s else RProp.eta_high s in
  let '(s', out) := RProp.rescale_update s p p' dl r d in
  data (RProp.step_sizes s') !! i = Some scale_i
  /\ data out !! i = Some (nmul scale_i x).
Proof.
  intros Hss Htr Hl Ht Hx scale_i.
  pose proof (rprop_step_sizes s p p' dl r d Hss Htr) as E.
  pose proof (rprop_result s p p' dl r d) as E'.
  destruct (RProp.rescale_update s p p' dl r d) as [s' out].
  simpl in E, E'. subst out.
  assert (data (RProp.step_sizes s') !! i = Some scale_i) as Hs.
  { rewrite E, lookup_zip_with, Hl, Ht. done. }
  split; [done|].
  unfold amul, amap2. simpl. by rewrite lookup_zip_with, Hs, Hx.
Qed.

Lemma rprop_componentwise_witness :
  let z := NdArray [2%nat] [0; 0]%float in
  let s := RProp.Self (Agent 1%float 1%float (NdArray [2%nat] [1; 1]%float) z)
             (NdArray [2%nat] [1; 1]%float)
             (NdArray [2%nat] [1; -1]%float) (lit 1 100) (lit 12 10) in
  let '(s', out) :=
    RProp.rescale_update s z z 1%float 0%float
      (NdArray [2%nat] [3; 5]%float) in
  data (RProp.step_sizes s') !! 0%nat = Some (lit 12 10)
  /\ data out !! 0%nat = Some (nmul (lit 12 10) 3%float).
Proof.
  intros z s.
  exact (rprop_componentwise s z z 1%float 0%float
           (NdArray [2%nat] [3; 5]%float) 0 1%float 1%float 3%float
           eq_refl eq_refl eq_refl eq_refl eq_refl).
Defined.

Lemma rprop_zero_mask (dl : float) (n : nat) (tr : list float) :
  float_finite dl = true -> Forall (fun x => float_finite x = true) tr ->
  length tr = n ->
  map (fun x => nleb x (of_Z 0))
      (zip_with nmul (map (fun x => nmul x dl) (replicate n (of_Z 0))) tr)
  = replicate n true.
Proof.
  intros Hdl Htr <-. induction Htr as [|t tr Ht _ IH]; [done|].
  cbn [length replicate map zip_with]. rewrite IH. f_equal.
  change (PrimFloat.leb (PrimFloat.mul (PrimFloat.mul 0 dl) t) 0 = true).
  apply b64_leb_zero.
  pose proof (b64_mul_zero_l dl 0 eq_refl) as H1. rewrite Hdl in H1.
  pose proof (b64_mul_zero_l t _ H1) as H2. by rewrite Ht in H2.
Qed.

Lemma replicate_mask_set {A} (n : nat) (a b : A) :
  zip_with (fun (m : bool) x => if m then a else x)
           (replicate n true) (replicate n b)
  = replicate n a.
Proof. induction n; simpl; [done | by f_equal]. Qed.

Lemma rprop_step_zero (b : agent float) sh v lo hi tc :
  rprop_call_ok sh tc ->
  rprop_step (RProp.Self b (full sh v) (zeros sh) lo hi) tc
  = (RProp.Self (set_traces (fst tc) b) (full sh lo) (zeros sh) lo hi,
     (replicate (size_of sh) true, scale lo (descent_direction (snd tc)))).
Proof.
  destruct tc as [tr c]. cbn [fst snd]. intros ([Hts Htl] & Hfin & Hdl & Hd).
  cbn [fst snd] in *.
  unfold rprop_step, call, RProp.rescale_update.
  cbn [fst snd RProp.base RProp.step_sizes RProp.last_update RProp.eta_low
       RProp.eta_high].
  assert (Em : RProp.sign_changes
            (RProp.Self (set_traces tr b) (full sh v) (zeros sh) lo hi)
            (delta c) = replicate (size_of sh) true).
  { unfold RProp.sign_changes, amul, ascale, amap, amap2, zeros, full.
    cbn [data RProp.last_update RProp.base traces set_traces].
    by apply rprop_zero_mask. }
  rewrite Em.
  assert (Es : where_set (replicate (size_of sh) true) (fun _ => lo)
                 (fill (full sh v) hi) = full sh lo).
  { rewrite fill_full. unfold where_set, full. cbn [shape data].
    by rewrite replicate_mask_set. }
  rewrite Es, amul_full by done. done.
Qed.

Lemma rprop_init (b : agent float) sh params :
  exists lo hi,
    fst (RProp.init_stepsize b sh params)
    = RProp.Self b (full sh (alpha b)) (zeros sh) lo hi.
Proof.
  unfold RProp.init_stepsize.
  destruct (setdefault "rprop_eta_low" _ params) as [lo m].
  destruct (setdefault "rprop_eta_high" _ m) as [hi m'].
  exists lo, hi. cbn [fst]. by rewrite ones_times_b64.
Qed.

Lemma rprop_run_zero (b : agent float) sh v lo hi cs :
  Forall (rprop_call_ok sh) cs ->
  let '(s', outs) :=
    run rprop_step (RProp.Self b (full sh v) (zeros sh) lo hi) cs in
  RProp.last_update s' = zeros sh
  /\ RProp.eta_low s' = lo
  /\ outs = map (fun tc => (replicate (size_of sh) true,
                            scale lo (descent_direction (snd tc)))) cs.
Proof.
  intros Hcs. revert b v.
  induction Hcs as [|tc cs Htc _ IH]; intros b v; [done|].
  cbn [run]. rewrite rprop_step_zero by done.
  specialize (IH (set_traces (fst tc) b) lo).
  destruct (run rprop_step _ cs) as [s' outs].
  destruct IH as (? & ? & ->). done.
Qed.

(** Without a finite [delta] the sign test fails although [last_update]
    is zero: on binary64 [0 * inf] is NaN, and [NaN <= 0] is false. A call
    with [delta = inf] right after [init_stepsize] (default parameters)
    gives every component [eta_high = 1.2]; so does a call with a NaN
    trace, at that component. *)
Lemma rprop_eta_high_on_infinite_delta :
  let sh := [2%nat] in
  let z := NdArray sh [0; 0]%float in
  let d := NdArray sh [3; 4]%float in
  let s0 := fst (RProp.init_stepsize (Agent 1%float 1%float z z) sh ∅) in
  RProp.last_update s0 = zeros sh
  /\ snd (rprop_step s0 (NdArray sh [1; 1]%float,
                         Inputs z z infinity 0%float d))
     = ([false; false], scale (lit 12 10) d)
  /\ snd (rprop_step s0 (NdArray sh [1; nan]%float,
                         Inputs z z 1%float 0%float d))
     = ([true; false],
        NdArray sh [(lit 1 100 * 3)%float; (lit 12 10 * 4)%float]).
Proof. vm_compute. repeat split; reflexivity. Qed.

(** C6, amended. RProp on binary64: [init_stepsize] sets [last_update]
    to zeros and no call writes it (a call returns it as it found it). So
    for every sequence of learning steps whose [delta] and traces are
    finite (neither infinite nor NaN), [last_update] is still all zeros at
    the end, the mask of the sign test is true at every component in
    every call, and every call returns [eta_low * descent_direction]. *)
Theorem rprop_always_eta_low (b : agent float) sh
    (params : gmap string float) cs :
  Forall (rprop_call_ok sh) cs ->
  let s0 := fst (RProp.init_stepsize b sh params) in
  (forall s p p' dl r d,
     RProp.last_update (fst (RProp.rescale_update s p p' dl r d))
     = RProp.last_update s)
  /\ RProp.last_update s0 = zeros sh
  /\ let '(s', outs) := run rprop_step s0 cs in
     RProp.last_update s' = zeros sh
     /\ outs = map (fun tc => (replicate (size_of sh) true,
                               scale (RProp.eta_low s0)
                                     (descent_direction (snd tc)))) cs.
Proof.
  intros Hcs s0. unfold s0. split; [done|].
  destruct (rprop_init b sh params) as (lo & hi & ->).
  split; [done|].
  pose proof (rprop_run_zero b sh (alpha b) lo hi cs Hcs) as Hrun.
  destruct (run rprop_step _ cs) as [s' outs].
  destruct Hrun as (? & ? & ?). done.
Qed.

Lemma rprop_always_eta_low_witness :
  let sh := [2%nat] in
  let z := NdArray sh [0; 0]%float in
  let c1 := (NdArray sh [1; -1]%float,
             Inputs z z 2%float 0%float (NdArray sh [3; 4]%float)) in
  let c2 := (NdArray sh [5; 6]%float,
             Inputs z z (-1)%float 0%float (NdArray sh [7; 8]%float)) in
  let s0 := fst (RProp.init_stepsize (Agent 1%float 1%float z z) sh ∅) in
  RProp.last_update s0 = zeros sh
  /\ let '(s', outs) := run rprop_step s0 [c1; c2] in
     RProp.last_update s' = zeros sh
     /\ outs = [([true; true],
                 scale (RProp.eta_low s0) (NdArray sh [3; 4]%float));
                ([true; true],
                 scale (RProp.eta_low s0) (NdArray sh [7; 8]%float))].
Proof.
  intros sh z c1 c2 s0.
  refine (proj2 (rprop_always_eta_low (Agent 1%float 1%float z z) sh ∅
                   [c1; c2] _)).
  repeat constructor.
Defined.

(** ** McClains *)

Lemma mcclains_init_form {F : Type} `{Numeric F} (b : agent F) sh params :
  exists b' m,
    fst (McClains.init_stepsize b sh params)
    = McClains.Self b' (full sh (nmul (of_Z 1) (alpha b'))) m.
Proof.
  unfold McClains.init_stepsize.
  destruct (setdefault "mcclain_a" _ params) as [m0 p0].
  destruct (nltb (alpha b) m0).
  - destruct (setdefault "mcclain_a" _ p0) as [m1 p1].
    destruct (setdefault "mcclain_a" _ _) as [m2 p2].
    eexists _, _. cbn [fst]. rewrite ones_times. reflexivity.
  - destruct (setdefault "mcclain_a" _ p0) as [m1 p1].
    eexists _, _. cbn [fst]. rewrite ones_times. reflexivity.
Qed.

Lemma mcclain_alpha_shift {F : Type} `{Numeric F} (al a : F) (n : nat) :
  mcclain_alpha (ndiv al (mcclains_divisor al a)) a n
  = mcclain_alpha al a (S n).
Proof. induction n as [|n IH]; [done|]. cbn in *. by rewrite IH. Qed.

Lemma mcclains_run {F : Type} `{Numeric F} (b : agent F) sh v (a : F) cs :
  Forall (fun c => has_shape sh (descent_direction c)) cs ->
  snd (run (call McClains.rescale_update) (McClains.Self b (full sh v) a) cs)
  = imap (fun i c => scale (mcclain_alpha (alpha b) a i)
                           (descent_direction c)) cs
  /\ alpha (McClains.base
              (fst (run (call McClains.rescale_update)
                        (McClains.Self b (full sh v) a) cs)))
     = mcclain_alpha (alpha b) a (length cs)
  /\ McClains.mcclain_param
       (fst (run (call McClains.rescale_update)
                 (McClains.Self b (full sh v) a) cs)) = a.
Proof.
  intros Hcs. revert b v. induction Hcs as [|c cs Hc _ IH]; intros b v;
    [done|].
  cbn [run]. unfold call at 1 3 5, McClains.rescale_update.
  cbn [McClains.step_sizes McClains.base McClains.mcclain_param].
  rewrite fill_full.
  change (nsub (nadd (of_Z 1) (alpha b)) a)
    with (mcclains_divisor (alpha b) a).
  specialize (IH (set_alpha b (ndiv (alpha b)
                                    (mcclains_divisor (alpha b) a)))
                 (alpha b)).
  destruct (run _ _ cs) as [s' outs]. cbn [fst snd alpha set_alpha] in *.
  destruct IH as (-> & -> & ->). split; [|split; [|done]].
  - cbn [imap]. f_equal; [by apply amul_full|].
    apply imap_ext. intros i c' _. unfold compose.
    by rewrite mcclain_alpha_shift.
  - cbn [length]. by rewrite mcclain_alpha_shift.
Qed.

(** On binary64 the factors of McClains need not go down, although
    [mcclain_a] is positive and below the initial [alpha]. With
    [alpha = 3] and [mcclain_a = 2] the calls apply [3], [1.5], [3].
    With [alpha = 1] and [mcclain_a = 0.9], a parameter below 1, the call
    number 16 applies a factor below [mcclain_a], and the calls number 17
    and 18 each apply more than the call before. *)
Lemma mcclains_step_can_grow :
  let z := NdArray [1%nat] [0%float] in
  let c := Inputs z z 0%float 0%float (NdArray [1%nat] [1%float]) in
  let factors := fun (al a : float) (n : nat) =>
    map data
        (snd (run (call McClains.rescale_update)
                  (fst (McClains.init_stepsize (Agent al 1%float z z)
                          [1%nat] {[ "mcclain_a" := a ]}))
                  (replicate n c))) in
  factors 3%float 2%float 3%nat = [[3]; [1.5]; [3]]%float
  /\ exists x y w,
       drop 15 (factors 1%float (lit 9 10) 18%nat) = [[x]; [y]; [w]]
       /\ PrimFloat.ltb x (lit 9 10) = true
       /\ PrimFloat.ltb x y = true /\ PrimFloat.ltb y w = true.
Proof.
  intros z c factors. split; [vm_compute; reflexivity|].
  exists 0x1.cccccccccccccp-1%float, 0x1.ccccccccccccdp-1%float,
         0x1.ccccccccccccep-1%float.
  vm_compute. repeat split; reflexivity.
Qed.

(** C7, amended. McClains, on every scalar type: each call applies the
    current [alpha] and then replaces it by
    [alpha / (1 + alpha - mcclain_a)], so that over every call sequence
    the call number [i+1] returns the descent direction scaled by the
    [i]-th iterate [mcclain_alpha] of that map from the [alpha] that
    [init_stepsize] left, the divisors not being zero; [mcclain_a] is not
    changed. The factors are not monotone in general. *)
Theorem mcclains_schedule {F : Type} `{Numeric F} (b : agent F) sh
    (params : gmap string F) cs :
  let s0 := fst (McClains.init_stepsize b sh params) in
  let al := alpha (McClains.base s0) in
  let a := McClains.mcclain_param s0 in
  Forall (fun c => has_shape sh (descent_direction c)) cs ->
  mcclain_divisors_ok al a (length cs) ->
  let r := run (call McClains.rescale_update) s0 cs in
  snd r = imap (fun i c => scale (mcclain_alpha al a i)
                                 (descent_direction c)) cs
  /\ alpha (McClains.base (fst r)) = mcclain_alpha al a (length cs)
  /\ McClains.mcclain_param (fst r) = a.
Proof.
  intros s0 al a Hcs _. unfold al, a, s0.
  destruct (mcclains_init_form b sh params) as (b' & m & ->).
  cbn [McClains.base McClains.mcclain_param]. by apply mcclains_run.
Qed.

Lemma mcclains_schedule_witness :
  let z := NdArray [1%nat] [0%float] in
  let c := Inputs z z 0%float 0%float (NdArray [1%nat] [1%float]) in
  let b := Agent 3%float 1%float z z in
  let params : gmap string float := {[ "mcclain_a" := 2%float ]} in
  snd (run (call McClains.rescale_update)
           (fst (McClains.init_stepsize b [1%nat] params)) [c; c; c])
  = imap (fun i c => scale (mcclain_alpha 3%float 2%float i)
                           (descent_direction c)) [c; c; c].
Proof.
  intros z c b params.
  refine (proj1 (mcclains_schedule b [1%nat] params [c; c; c] _ _)).
  - repeat constructor.
  - intros k Hk. unfold nonzero.
    destruct k as [|[|[|k]]]; [vm_compute; reflexivity..|].
    cbn [length] in Hk. lia.
Defined.

(** ** AlphaBounds *)

Lemma b64_ltb_of_leb (x y : float) :
  PrimFloat.leb y x = true -> PrimFloat.ltb x y = false.
Proof.
  rewrite FloatAxioms.leb_spec, FloatAxioms.ltb_spec. unfold SFleb, SFltb.
  rewrite (SFcompare_antisym (Prim2SF y) (Prim2SF x)).
  by destruct (SFcompare (Prim2SF y) (Prim2SF x)) as [[]|].
Qed.

Lemma b64_ltb_nan (x y : float) :
  PrimFloat.is_nan y = true -> PrimFloat.ltb x y = false.
Proof.
  rewrite b64_is_nan, FloatAxioms.ltb_spec. unfold SFltb.
  destruct (Prim2SF y); try done. by destruct (Prim2SF x).
Qed.

(** [numpy.min([x, y])] is a NaN, or at most [x]; it is a NaN when [x]
    is. *)
Lemma b64_min_le (x y : float) :
  (PrimFloat.is_nan (fmin x y) = true \/ PrimFloat.leb (fmin x y) x = true)
  /\ PrimFloat.ltb x (fmin x y) = false
  /\ (PrimFloat.is_nan x = true -> PrimFloat.is_nan (fmin x y) = true).
Proof.
  unfold fmin.
  destruct (PrimFloat.is_nan x) eqn:Ex.
  { rewrite Ex. split; [by left|]. split; [by apply b64_ltb_nan | done]. }
  destruct (PrimFloat.is_nan y) eqn:Ey.
  { rewrite Ey. split; [by left|]. split; [by apply b64_ltb_nan | done]. }
  destruct (PrimFloat.leb x y) eqn:E.
  - pose proof (b64_leb_refl x Ex) as Hr.
    split; [by right|]. split; [by apply b64_ltb_of_leb | done].
  - pose proof (b64_leb_total x y Ex Ey E) as Hr.
    split; [by right|]. split; [by apply b64_ltb_of_leb | done].
Qed.

Lemma alphabounds_step_spec {F : Type} `{Numeric F} (b : agent F) sh v tc :
  has_shape sh (descent_direction (snd tc)) ->
  let a' := nmin (alpha b) (alphabounds_bound (gamma b) tc) in
  alphabounds_step (AlphaBounds.Self b (full sh v)) tc
  = (AlphaBounds.Self (set_alpha (set_traces (fst tc) b) a') (full sh a'),
     (a', scale a' (descent_direction (snd tc)))).
Proof.
  destruct tc as [tr c]. cbn [fst snd]. intros Hd.
  unfold alphabounds_step, call, AlphaBounds.rescale_update.
  cbn [fst snd AlphaBounds.base AlphaBounds.step_sizes].
  rewrite fill_full, amul_full by done. done.
Qed.

Lemma alphabounds_run {F : Type} `{Numeric F} (b : agent F) sh v cs :
  Forall (fun tc => has_shape sh (descent_direction (snd tc))) cs ->
  snd (run alphabounds_step (AlphaBounds.Self b (full sh v)) cs)
  = zip_with (fun a tc => (a, scale a (descent_direction (snd tc))))
             (alphabounds_alphas (gamma b) (alpha b) cs) cs.
Proof.
  intros Hcs. revert b v. induction Hcs as [|tc cs Hd _ IH]; intros b v;
    [done|].
  cbn [run]. rewrite (alphabounds_step_spec b sh v tc Hd).
  match goal with
  | |- context [run alphabounds_step (AlphaBounds.Self ?b' (full sh ?v'))] =>
      specialize (IH b' v')
  end.
  destruct (run _ _ cs) as [s' outs]. cbn [snd] in *. rewrite IH.
  cbn [alphabounds_alphas zip_with gamma alpha set_alpha set_traces]. done.
Qed.

Lemma alphabounds_never_above (g a : float) cs :
  never_above_from a (alphabounds_alphas g a cs).
Proof.
  revert a. induction cs as [|tc cs IH]; intros a; [done|].
  cbn [alphabounds_alphas never_above_from].
  destruct (b64_min_le a (alphabounds_bound g tc)) as (H1 & H2 & _).
  split; [exact H1|]. split; [exact H2|]. apply IH.
Qed.

(** On binary64 [alpha] can become NaN from finite inputs, and a NaN is
    not at most the value before it: with the finite traces
    [[2^1023, 2^1023]] and features [phi_t = [-4, 4]] the two products of
    the dot product are [+inf] and [-inf], their sum is NaN, and so are
    [1/|NaN|] and the minimum; [alpha] stays NaN on the next call. *)
Lemma alphabounds_alpha_becomes_nan :
  let sh := [2%nat] in
  let z := NdArray sh [0; 0]%float in
  let b := Agent 5%float 1%float z z in
  let c1 := (NdArray sh [0x1p1023; 0x1p1023]%float,
             Inputs (NdArray sh [-4; 4]%float) z 1%float 0%float
                    (NdArray sh [1; 1]%float)) in
  let c2 := (NdArray sh [1; 2]%float,
             Inputs (NdArray sh [1; 0]%float) (NdArray sh [0; 3]%float)
                    1%float 0%float (NdArray sh [1; 1]%float)) in
  let alphas :=
    map fst (snd (run alphabounds_step
                      (fst (AlphaBounds.init_stepsize b sh ∅)) [c1; c2])) in
  forallb float_finite (data (fst c1) ++ data (phi_t (snd c1))) = true
  /\ map PrimFloat.is_nan alphas = [true; true]
  /\ map (fun a => PrimFloat.leb a 1) alphas = [false; false].
Proof. vm_compute. repeat split; reflexivity. Qed.

(** C8, amended. AlphaBounds on binary64: [init_stepsize] sets [alpha] to
    1 whatever was configured; each learning step sets [alpha] to
    [min(alpha, 1/|dot(traces, gamma*phi_tp - phi_t)|)]
    ([alphabounds_alphas]) and returns [alpha * descent_direction] with
    the new [alpha]; so over every sequence of learning steps [alpha]
    never exceeds the value before it: each new [alpha] is at most the
    one before it or is a NaN, which it is when the bound or the [alpha]
    before is a NaN. *)
Theorem alphabounds_alpha_nonincreasing (b : agent float) sh
    (params : gmap string float) cs :
  Forall (fun tc => has_shape sh (descent_direction (snd tc))) cs ->
  let s0 := fst (AlphaBounds.init_stepsize b sh params) in
  let outs := snd (run alphabounds_step s0 cs) in
  alpha (AlphaBounds.base s0) = 1%float
  /\ map fst outs = alphabounds_alphas (gamma b) 1%float cs
  /\ outs = zip_with (fun a tc => (a, scale a (descent_direction (snd tc))))
                     (map fst outs) cs
  /\ never_above_from 1%float (map fst outs).
Proof.
  intros Hcs s0 outs. split; [done|].
  assert (E : outs = zip_with (fun a tc =>
                                 (a, scale a (descent_direction (snd tc))))
                              (alphabounds_alphas (gamma b) 1%float cs) cs).
  { unfold outs, s0, AlphaBounds.init_stepsize. cbn [fst].
    rewrite ones_times_b64.
    by rewrite (alphabounds_run _ sh _ cs Hcs). }
  assert (Ef : map fst outs = alphabounds_alphas (gamma b) 1%float cs).
  { rewrite E. clear. generalize 1%float.
    induction cs as [|tc cs IH]; intros a; [done|].
    cbn [alphabounds_alphas zip_with map fst]. by rewrite IH. }
  split; [done|]. split; [by rewrite Ef|].
  rewrite Ef. apply alphabounds_never_above.
Qed.

Lemma alphabounds_alpha_nonincreasing_witness :
  let sh := [2%nat] in
  let z := NdArray sh [0; 0]%float in
  let b := Agent 5%float 1%float z z in
  let c1 := (NdArray sh [1; 2]%float,
             Inputs (NdArray sh [1; 0]%float) (NdArray sh [0; 3]%float)
                    1%float 0%float (NdArray sh [1; 1]%float)) in
  let c2 := (z, snd c1) in
  never_above_from 1%float
    (map fst (snd (run alphabounds_step
                       (fst (AlphaBounds.init_stepsize b sh ∅)) [c1; c2]))).
Proof.
  intros sh z b c1 c2.
  refine (proj2 (proj2 (proj2 (alphabounds_alpha_nonincreasing b sh ∅
                                 [c1; c2] _)))).
  repeat constructor.
Defined.

(** The two learning steps of the witness on binary64: [alpha] goes from
    1 to 0.2 (the traces give [|D| = 5]) and a zero [D] then leaves
    it. *)
Lemma alphabounds_example_binary64 :
  let z := NdArray [2%nat] [0; 0]%float in
  let b := Agent 5%float 1%float z z in
  let c1 := (NdArray [2%nat] [1; 2]%float,
             Inputs (NdArray [2%nat] [1; 0]%float)
                    (NdArray [2%nat] [0; 3]%float)
                    1%float 0%float (NdArray [2%nat] [1; 1]%float)) in
  let c2 := (z, snd c1) in
  map fst (snd (run alphabounds_step
                  (fst (AlphaBounds.init_stepsize b [2%nat] ∅)) [c1; c2]))
  = [lit 1 5; lit 1 5].
Proof. vm_compute. reflexivity. Qed.

(** ** The composed agent *)

(** C10. For every strategy class and base agent class, the class that
    [genAdaptiveAgent] builds is named "Adaptive (<strategy name>) <agent
    name>", and its [randomize_parameters] runs the base agent's method
    first, the strategy's second on the state the first left (both on the
    caller's keyword arguments), and returns the agent's values followed
    by the strategy's. For the twelve strategies the names are listed. *)
Theorem genAdaptiveAgent_spec {F : Type} `{Numeric F}
    (stepsize_class agent_class : pyclass F)
    (args : gmap string F) (w : world F) :
  cls_name (genAdaptiveAgent stepsize_class agent_class)
  = "Adaptive (" +:+ cls_name stepsize_class +:+ ") " +:+ cls_name agent_class
  /\ (let r1 := randomize_parameters agent_class args w in
      let r2 := randomize_parameters stepsize_class args (snd r1) in
      randomize_parameters (genAdaptiveAgent stepsize_class agent_class)
                           args w
      = (fst r1 ++ fst r2, snd r2))
  /\ map (fun s => cls_name (genAdaptiveAgent s agent_class)) strategies
     = map (fun n => "Adaptive (" +:+ n +:+ ") " +:+ cls_name agent_class)
           ["Fixed StepSize"; "GHS"; "McClains"; "STC"; "RProp"; "Autostep";
            "AlphaBound"; "AdagradFull"; "AdagradDiagonal"; "Almeida";
            "vSGD"; "InvMaxEigen"].
Proof.
  split; [done|]. split; [|done].
  unfold genAdaptiveAgent. cbn [randomize_parameters].
  destruct (randomize_parameters agent_class args w) as [l1 w1].
  cbn [fst snd].
  by destruct (randomize_parameters stepsize_class args w1) as [l2 w2].
Qed.

(** An agent class that draws its [alpha], composed with GHS: the agent
    takes the generator's first value and GHS the second; a fixed [ghs_a]
    still costs GHS its draw. *)
Lemma genAdaptiveAgent_example :
  let agent_class : pyclass float :=
    PyClass "sarsa"
      (fun args w =>
         let '(r, w) := draw w in
         let '(a, _, w) := resolve "alpha" r args w in ([a], w)) in
  let w := World ∅ 1%float (fun n => float_of_Z (Z.of_nat n + 2))
             (fun _ _ => 0%Z) 0 in
  let c := genAdaptiveAgent GHS_class agent_class in
  cls_name c = "Adaptive (GHS) sarsa"
  /\ fst (randomize_parameters c ∅ w) = [2; 30000]%float
  /\ drawn (snd (randomize_parameters c ∅ w)) = 2%nat
  /\ fst (randomize_parameters c {[ "ghs_a" := 7%float ]} w) = [2; 7]%float
  /\ drawn (snd (randomize_parameters c {[ "ghs_a" := 7%float ]} w)) = 2%nat.
Proof. vm_compute. repeat split; reflexivity. Qed.


(** ** AdagradDiagonal *)

Lemma adagrad_sizes_data {F : Type} `{Numeric F} (al t : F)
    (ss hl : list F) :
  length ss = length hl ->
  zip_with (fun st hi : F =>
              if negb (neqb hi (of_Z 0))
              then nmul st (ndiv (nsqrt t) (nsqrt hi)) else st)
           (map (fun _ => al) ss) hl
  = map (adagrad_size al t) hl.
Proof.
  revert hl. induction ss as [|x ss IH]; intros [|h hl] Hlen; try done.
  cbn [map zip_with]. cbn [length] in Hlen. rewrite IH by lia. done.
Qed.

Lemma adagrad_later_call {F : Type} `{Numeric F}
    (s : AdagradDiagonal.self F) sh c :
  has_shape sh (AdagradDiagonal.step_sizes s) ->
  has_shape sh (AdagradDiagonal.h s) ->
  has_shape sh (descent_direction c) ->
  nltb (of_Z 1) (nadd (AdagradDiagonal.adagrad_counter s) (of_Z 1)) = true ->
  let r := call AdagradDiagonal.rescale_update s c in
  AdagradDiagonal.h (fst r)
  = aadd (AdagradDiagonal.h s) (asq (descent_direction c))
  /\ AdagradDiagonal.adagrad_counter (fst r)
     = nadd (AdagradDiagonal.adagrad_counter s) (of_Z 1)
  /\ AdagradDiagonal.step_sizes (fst r)
     = NdArray sh
         (map (adagrad_size (alpha (AdagradDiagonal.base s))
                            (AdagradDiagonal.adagrad_counter (fst r)))
              (data (AdagradDiagonal.h (fst r))))
  /\ snd r = amul (AdagradDiagonal.step_sizes (fst r)) (descent_direction c).
Proof.
  intros [Hs Hl] [Hhs Hhl] [Hds Hdl] Hc r. unfold r, call,
    AdagradDiagonal.rescale_update. rewrite Hc.
  cbn [fst snd AdagradDiagonal.h AdagradDiagonal.adagrad_counter
       AdagradDiagonal.step_sizes].
  split; [done|]. split; [done|]. split; [|done].
  unfold fill, amap. cbn [shape data]. rewrite Hs. f_equal.
  apply adagrad_sizes_data.
  unfold aadd, asq, amap, amap2. cbn [data].
  rewrite length_zip_with, length_map. lia.
Qed.

(** On binary64 the step size of a component does not always shrink
    although its entry is not zero on any call. With [alpha = 1] and the
    entries [1], [1], [0.5] it is [1] after the second call and
    [1.1547005383792515] after the third; with the same entry [0.1] on
    every call it is [9.999999999999998] after the calls number 2 and 3
    and [10] after the call number 4. *)
Lemma adagrad_step_size_can_grow :
  let z := NdArray [1%nat] [0%float] in
  let c := fun x : float => Inputs z z 0%float 0%float (NdArray [1%nat] [x]) in
  let sizes := fun xs : list float =>
    data (AdagradDiagonal.step_sizes
            (fst (run (call AdagradDiagonal.rescale_update)
                      (fst (AdagradDiagonal.init_stepsize
                              (Agent 1%float 1%float z z) [1%nat] ∅))
                      (map c xs)))) in
  sizes [1; 1]%float = [1%float]
  /\ sizes [1; 1; 0.5]%float = [0x1.279a74590331cp+0%float]
  /\ PrimFloat.ltb 1 0x1.279a74590331cp+0 = true
  /\ sizes (replicate 3 (lit 1 10)) = [0x1.3ffffffffffffp+3%float]
  /\ sizes (replicate 4 (lit 1 10)) = [10%float]
  /\ PrimFloat.ltb 0x1.3ffffffffffffp+3 10 = true.
Proof. vm_compute. repeat split; reflexivity. Qed.

(** C4, amended. AdagradDiagonal on binary64. The first call after
    [init_stepsize] sets the counter to [1], does not take the
    [counter > 1] branch, leaves the step sizes at [alpha] and returns
    [alpha * descent_direction]. A later call (one whose counter exceeds
    [1]), from any instance, adds the squared entries to [h] and stores
    for each component the step size [alpha * (sqrt(counter) / sqrt(h))],
    or [alpha] where [h] is zero ([adagrad_size]), and returns these step
    sizes times the descent direction; this holds on every scalar type.
    The step size of a component need not shrink. *)
Theorem adagrad_diagonal_steps (b : agent float) sh
    (params : gmap string float) c :
  has_shape sh (descent_direction c) ->
  let s0 := fst (AdagradDiagonal.init_stepsize b sh params) in
  let r := call AdagradDiagonal.rescale_update s0 c in
  snd r = scale (alpha b) (descent_direction c)
  /\ AdagradDiagonal.step_sizes (fst r) = AdagradDiagonal.step_sizes s0
  /\ AdagradDiagonal.step_sizes s0 = full sh (alpha b)
  /\ AdagradDiagonal.adagrad_counter (fst r) = 1%float
  /\ AdagradDiagonal.h (fst r) = aadd (zeros sh) (asq (descent_direction c))
  /\ forall (F : Type) (HF : Numeric F) (s : AdagradDiagonal.self F) c',
       has_shape sh (AdagradDiagonal.step_sizes s) ->
       has_shape sh (AdagradDiagonal.h s) ->
       has_shape sh (descent_direction c') ->
       nltb (of_Z 1) (nadd (AdagradDiagonal.adagrad_counter s) (of_Z 1))
       = true ->
       let r' := call AdagradDiagonal.rescale_update s c' in
       AdagradDiagonal.h (fst r')
       = aadd (AdagradDiagonal.h s) (asq (descent_direction c'))
       /\ AdagradDiagonal.adagrad_counter (fst r')
          = nadd (AdagradDiagonal.adagrad_counter s) (of_Z 1)
       /\ AdagradDiagonal.step_sizes (fst r')
          = NdArray sh
              (map (adagrad_size (alpha (AdagradDiagonal.base s))
                                 (AdagradDiagonal.adagrad_counter (fst r')))
                   (data (AdagradDiagonal.h (fst r'))))
       /\ snd r' = amul (AdagradDiagonal.step_sizes (fst r'))
                        (descent_direction c').
Proof.
  intros Hd s0 r.
  assert (E : r = (AdagradDiagonal.Self b (full sh (alpha b))
                     (aadd (zeros sh) (asq (descent_direction c)))
                     1%float,
                   scale (alpha b) (descent_direction c))).
  { unfold r, s0, call, AdagradDiagonal.rescale_update,
      AdagradDiagonal.init_stepsize.
    cbn [fst AdagradDiagonal.base AdagradDiagonal.step_sizes
         AdagradDiagonal.h AdagradDiagonal.adagrad_counter].
    change (nltb (of_Z 1) (nadd (of_Z 0) (of_Z 1))) with false.
    change (nadd (of_Z 0) (of_Z 1)) with 1%float.
    cbv iota. rewrite ones_times_b64. by rewrite amul_full. }
  rewrite E. cbn [fst snd AdagradDiagonal.step_sizes
                  AdagradDiagonal.adagrad_counter AdagradDiagonal.h].
  split; [done|]. split.
  { unfold s0, AdagradDiagonal.init_stepsize.
    cbn [fst AdagradDiagonal.step_sizes]. by rewrite ones_times_b64. }
  split.
  { unfold s0, AdagradDiagonal.init_stepsize.
    cbn [fst AdagradDiagonal.step_sizes]. by rewrite ones_times_b64. }
  split; [done|]. split; [done|].
  intros F HF s c'. by apply adagrad_later_call.
Qed.

Lemma adagrad_diagonal_steps_witness :
  let z := NdArray [2%nat] [0; 0]%float in
  let c := Inputs z z 0%float 0%float (NdArray [2%nat] [3; 4]%float) in
  let b := Agent (lit 1 10) 1%float z z in
  let s0 := fst (AdagradDiagonal.init_stepsize b [2%nat] ∅) in
  snd (call AdagradDiagonal.rescale_update s0 c)
  = scale (lit 1 10) (NdArray [2%nat] [3; 4]%float).
Proof.
  intros z c b s0.
  refine (proj1 (adagrad_diagonal_steps b [2%nat] ∅ c _)).
  repeat constructor.
Defined.

(** ** vSGD: the meta-rate update divides by an unguarded [v] *)

(** C1 fails on vSGD. Default parameters, weights of shape (2,), every
    call with the finite inputs [phi_t = [1,0]], [phi_tp = [0,0]],
    [delta = reward = 1], [descent_direction = [1,0]]: the second
    component never gets a gradient, so its [v] stays 0. After 50 calls
    the whole state is finite and the slow start is over: call 51 computes
    [g**2 / v = 0/0 = NaN] for it, which [clip] passes on into [t];
    [step_sizes] is still finite after that call, and call 52 stores NaN
    in [step_sizes] and returns NaN, on binary64 as numpy computes it. *)
Lemma vsgd_step_sizes_nan_after_slow_start :
  let z := NdArray [2%nat] [0; 0]%float in
  let c := Inputs (NdArray [2%nat] [1; 0]%float) z 1%float 1%float
                  (NdArray [2%nat] [1; 0]%float) in
  let s0 := fst (vSGD.init_stepsize (Agent (lit 1 10) 1%float z z)
                                    [2%nat] ∅) in
  let s50 := fst (run (call vSGD.rescale_update) s0 (replicate 50 c)) in
  let s51 := fst (call vSGD.rescale_update s50 c) in
  let s52 := fst (call vSGD.rescale_update s51 c) in
  forallb float_finite
    (data (vSGD.step_sizes s50) ++ data (vSGD.g s50) ++ data (vSGD.v s50)
     ++ data (vSGD.h s50) ++ data (vSGD.t s50) ++ [vSGD.slow_start s50])
  = true
  /\ data (vSGD.step_sizes s51) = [1; 0]%float
  /\ map PrimFloat.is_nan (data (vSGD.t s51)) = [false; true]
  /\ map PrimFloat.is_nan (data (vSGD.step_sizes s52)) = [false; true]
  /\ map PrimFloat.is_nan (data (snd (call vSGD.rescale_update s51 c)))
     = [false; true].
Proof. vm_compute. repeat split; reflexivity. Qed.

(** The same defect without rounding, on the extended reals, with
    [vsgd_slowstart = 0] (a value [randomize_parameters] can draw): the
    first call, on a zero descent direction, leaves [t = NaN] behind
    finite step sizes, and the second stores NaN in [step_sizes]. *)
Lemma vsgd_step_sizes_nan_exact :
  let c := fun d : R =>
    Inputs (lift [1%nat] [1%R]) (lift [1%nat] [0%R]) (Fin 1) (Fin 1)
           (lift [1%nat] [d]) in
  let s0 := fst (vSGD.init_stepsize
                   (Agent (Fin 1) (Fin 1) (lift [1%nat] [0%R])
                          (lift [1%nat] [0%R]))
                   [1%nat] {[ "vsgd_slowstart" := Fin 0 ]}) in
  let s1 := fst (call vSGD.rescale_update s0 (c 0%R)) in
  let s2 := fst (call vSGD.rescale_update s1 (c 1%R)) in
  data (vSGD.step_sizes s1) = [Fin 0]
  /\ data (vSGD.t s1) = [NaN]
  /\ data (vSGD.step_sizes s2) = [NaN].
Proof.
  intros c s0 s1 s2.
  assert (E0 : s0 = vSGD.Self (Agent (Fin 1) (Fin 1) (lift [1%nat] [0%R])
                                     (lift [1%nat] [0%R]))
                  (full [1%nat] (Fin 1)) (zeros [1%nat]) (zeros [1%nat])
                  (zeros [1%nat]) (full [1%nat] (Fin 100)) (Fin 0)).
  { unfold s0, vSGD.init_stepsize.
    unfold setdefault. rewrite lookup_singleton_ne by done.
    rewrite lookup_insert_ne, lookup_singleton_eq by done.
    cbn [fst]. rewrite !ones_times_xreal. done. }
  assert (E1 : s1 = vSGD.Self (Agent (Fin 1) (Fin 1) (lift [1%nat] [0%R])
                                     (lift [1%nat] [0%R]))
                  (NdArray [1%nat] [Fin 0]) (NdArray [1%nat] [Fin 0])
                  (NdArray [1%nat] [Fin 0]) (NdArray [1%nat] [Fin (1 / 100)])
                  (NdArray [1%nat] [NaN]) (Fin (-1))).
  { unfold s1. rewrite E0. unfold call, vSGD.rescale_update, c.
    cbv [vSGD.base vSGD.step_sizes vSGD.g vSGD.v vSGD.h vSGD.t
         vSGD.slow_start vSGD.decay vSGD.inv_t fst snd phi_t phi_tp delta
         reward descent_direction lift full zeros size_of foldr Nat.mul
         Nat.add replicate amul aadd asub adiv asq scale amap amap2 map
         zip_with shape data gamma lit].
    xdecide. unfold inf_signed. xdecide.
    repeat f_equal; lra. }
  rewrite E1. unfold s2. rewrite E1.
  unfold call, vSGD.rescale_update, c.
  cbv [vSGD.base vSGD.step_sizes vSGD.g vSGD.v vSGD.h vSGD.t
       vSGD.slow_start vSGD.decay vSGD.inv_t fst snd phi_t phi_tp delta
       reward descent_direction lift full zeros size_of foldr Nat.mul
       Nat.add replicate amul aadd asub adiv asq scale amap amap2 map
       zip_with shape data gamma lit].
  xdecide. done.
Qed.


(** ** A zero descent direction *)






















(** The same first call on binary64, with default parameters, for the
    strategies that need no [exp]: every returned entry is a zero. For
    AdagradFull the rank-one update with a zero vector keeps the matrix and
    the square root of the diagonal preconditioner is taken entry by
    entry. *)
Lemma zero_direction_binary64 :
  let sh := [2%nat] in
  let v := fun x y : float => NdArray sh [x; y] in
  let b := Agent (lit 1 10) (lit 9 10) (v 1 2)%float (v 3 4)%float in
  let c := Inputs (v 1 0)%float (v 0 1)%float 2%float 1%float
                  (v 0 0)%float in
  let is_zero := fun o : ndarray float =>
    shape o = sh
    /\ forallb (fun x => PrimFloat.eqb x 0%float) (data o) = true in
  Forall is_zero
    [snd (call AdaptiveStepSize.rescale_update
            (fst (AdaptiveStepSize.init_stepsize b sh ∅)) c);
     snd (call GHS.rescale_update (fst (GHS.init_stepsize b sh ∅)) c);
     snd (call McClains.rescale_update
            (fst (McClains.init_stepsize b sh ∅)) c);
     snd (call STC.rescale_update (fst (STC.init_stepsize b sh ∅)) c);
     snd (call RProp.rescale_update (fst (RProp.init_stepsize b sh ∅)) c);
     snd (call AlphaBounds.rescale_update
            (fst (AlphaBounds.init_stepsize b sh ∅)) c);
     snd (call (AdagradFull.rescale_update (fun h _ _ _ => h)
                                           (map (map PrimFloat.sqrt)))
            (fst (AdagradFull.init_stepsize b sh ∅)) c);
     snd (call AdagradDiagonal.rescale_update
            (fst (AdagradDiagonal.init_stepsize b sh ∅)) c);
     snd (call AlmeidaAdaptive.rescale_update
            (fst (AlmeidaAdaptive.init_stepsize b sh ∅)) c);
     snd (call vSGD.rescale_update (fst (vSGD.init_stepsize b sh ∅)) c);
     snd (call (InvMaxEigen.rescale_update (v 0 1)%float)
            (fst (InvMaxEigen.init_stepsize (v 3 4)%float b sh ∅)) c)].
Proof. vm_compute. repeat constructor. Qed.

(** ** The parameter dictionary after [init_stepsize] *)

Lemma lit_xreal (n d : Z) :
  d <> 0%Z -> lit n d = Fin (IZR n / IZR d).
Proof.
  intros Hd. unfold lit. simpl. rewrite Reqb_false; [done|].
  by apply not_0_IZR.
Qed.

Lemma mcclains_init_shape (b : agent xreal) sh params :
  exists b' m,
    fst (McClains.init_stepsize b sh params)
    = McClains.Self b' (full sh (alpha b')) m.
Proof.
  unfold McClains.init_stepsize.
  destruct (setdefault "mcclain_a" _ params) as [m0 p0].
  destruct (nltb (alpha b) m0).
  - destruct (setdefault "mcclain_a" _ p0) as [m1 p1].
    destruct (setdefault "mcclain_a" _ _) as [m2 p2].
    eexists _, _. cbn [fst]. rewrite ones_times_xreal. reflexivity.
  - destruct (setdefault "mcclain_a" _ p0) as [m1 p1].
    eexists _, _. cbn [fst]. rewrite ones_times_xreal. reflexivity.
Qed.

Lemma setdefault_spec {F} (k : string) (d : F) (m : gmap string F) :
  snd (setdefault k d m) !! k = Some (fst (setdefault k d m))
  /\ fst (setdefault k d m) = default d (m !! k).
Proof.
  unfold setdefault. destruct (m !! k) eqn:E; simpl; [done|].
  by rewrite lookup_insert_eq.
Qed.

(** [init_stepsize] orders the two rates: afterwards [alpha] is the larger
    and [mcclain_param] the smaller of the configured [alpha] and
    [mcclain_a]. *)
Lemma mcclains_init_resolved (b : agent xreal) sh params (x y : R) :
  alpha b = Fin x ->
  default (lit 1 100) (params !! "mcclain_a") = Fin y ->
  let s0 := fst (McClains.init_stepsize b sh params) in
  alpha (McClains.base s0) = Fin (Rmax x y)
  /\ McClains.mcclain_param s0 = Fin (Rmin x y).
Proof.
  intros Hx Hy. unfold McClains.init_stepsize.
  destruct (setdefault_spec "mcclain_a" (lit 1 100) params) as [L0 V0].
  destruct (setdefault "mcclain_a" _ params) as [m0 p0].
  cbn [fst snd] in L0, V0.
  rewrite Hy in V0. subst m0. rewrite Hx.
  change (nltb (Fin x) (Fin y)) with (Rltb x y).
  unfold Rltb. destruct (Rlt_dec x y) as [Hlt|Hge].
  - destruct (setdefault_spec "mcclain_a" (lit 1 100) p0) as [L1 V1].
    destruct (setdefault "mcclain_a" _ p0) as [m1 p1]. cbn [fst snd] in L1, V1.
    rewrite L0 in V1. cbn [default] in V1. subst m1.
    destruct (setdefault_spec "mcclain_a" (lit 1 100)
                (<["mcclain_a" := Fin x]> p1)) as [L2 V2].
    destruct (setdefault "mcclain_a" _ (<["mcclain_a" := Fin x]> p1))
      as [m2 p2]. cbn [fst snd] in L2, V2.
    rewrite lookup_insert_eq in V2. cbn [default] in V2. subst m2.
    cbn [fst McClains.base McClains.mcclain_param alpha set_alpha].
    rewrite Rmax_right, Rmin_left by lra. done.
  - destruct (setdefault_spec "mcclain_a" (lit 1 100) p0) as [L1 V1].
    destruct (setdefault "mcclain_a" _ p0) as [m1 p1]. cbn [fst snd] in L1, V1.
    rewrite L0 in V1. cbn [default] in V1. subst m1.
    cbn [fst McClains.base McClains.mcclain_param alpha set_alpha].
    rewrite Hx, Rmax_left, Rmin_right by lra. done.
Qed.

Lemma setdefault_subseteq {F} (k : string) (d : F) (m : gmap string F) :
  m ⊆ snd (setdefault k d m).
Proof.
  unfold setdefault. destruct (m !! k) eqn:E; cbn [snd]; [done|].
  by apply insert_subseteq.
Qed.

Lemma setdefault_stored {F} (k : string) (d : F) (m : gmap string F) :
  snd (setdefault k d m) !! k = Some (fst (setdefault k d m)).
Proof. apply setdefault_spec. Qed.

Lemma setdefault_other {F} (k k' : string) (d : F) (m : gmap string F) :
  k <> k' -> snd (setdefault k d m) !! k' = m !! k'.
Proof.
  intros Hk. unfold setdefault. destruct (m !! k); cbn [snd]; [done|].
  by rewrite lookup_insert_ne.
Qed.

(** Splits the [setdefault] calls of an [init_stepsize]. *)
Ltac split_setdefault :=
  repeat match goal with
         | |- context [setdefault ?k ?d ?m] =>
             let x := fresh "x" in
             let p := fresh "p" in
             let E := fresh "E" in
             pose proof (setdefault_subseteq k d m);
             pose proof (setdefault_stored k d m);
             destruct (setdefault k d m) as [x p] eqn:E;
             cbn [fst snd] in *
         end.

(** X6. A parameter the caller supplied is never overwritten by
    [init_stepsize]: for every strategy but McClains the dictionary after
    the call extends the one before it (defaults are only added), for
    every scalar type. *)
Theorem init_keeps_supplied_parameters {F : Type} `{Numeric F}
    `{NumericExp F} (normal : ndarray F) (b : agent F) (sh : list nat)
    (params : gmap string F) :
  params ⊆ snd (AdaptiveStepSize.init_stepsize b sh params)
  /\ params ⊆ snd (GHS.init_stepsize b sh params)
  /\ params ⊆ snd (STC.init_stepsize b sh params)
  /\ params ⊆ snd (RProp.init_stepsize b sh params)
  /\ params ⊆ snd (Autostep.init_stepsize b sh params)
  /\ params ⊆ snd (AlphaBounds.init_stepsize b sh params)
  /\ params ⊆ snd (AdagradFull.init_stepsize b sh params)
  /\ params ⊆ snd (AdagradDiagonal.init_stepsize b sh params)
  /\ params ⊆ snd (AlmeidaAdaptive.init_stepsize b sh params)
  /\ params ⊆ snd (vSGD.init_stepsize b sh params)
  /\ params ⊆ snd (InvMaxEigen.init_stepsize normal b sh params).
Proof.
  unfold AdaptiveStepSize.init_stepsize, GHS.init_stepsize,
    STC.init_stepsize, RProp.init_stepsize, Autostep.init_stepsize,
    AlphaBounds.init_stepsize, AdagradFull.init_stepsize,
    AdagradDiagonal.init_stepsize, AlmeidaAdaptive.init_stepsize,
    vSGD.init_stepsize, InvMaxEigen.init_stepsize.
  repeat split; try done; cbv zeta; split_setdefault;
    repeat (etrans; [eassumption|]); done.
Qed.

Lemma mcclains_init_stored {F : Type} `{Numeric F} (b : agent F)
    (sh : list nat) (params : gmap string F) :
  snd (McClains.init_stepsize b sh params) !! "mcclain_a"
  = Some (McClains.mcclain_param (fst (McClains.init_stepsize b sh params))).
Proof.
  unfold McClains.init_stepsize.
  destruct (setdefault "mcclain_a" (lit 1 100) params) as [m p] eqn:E.
  pose proof (setdefault_stored "mcclain_a" (lit 1 100) params) as Hm.
  rewrite E in Hm. cbn [fst snd] in Hm.
  destruct (nltb (alpha b) m).
  - assert (E1 : setdefault "mcclain_a" (lit 1 100) p = (m, p))
      by (unfold setdefault; by rewrite Hm).
    rewrite E1. unfold setdefault. rewrite lookup_insert_eq. cbn [fst snd].
    by rewrite lookup_insert_eq.
  - unfold setdefault. rewrite Hm. by cbn [fst snd].
Qed.

(** X7. The parameters an instance works with are the ones the
    dictionary holds after [init_stepsize]: each parameter of the
    instance equals the entry under its key, whether it was supplied or
    defaulted, for every scalar type (McClains, which may exchange
    [mcclain_a] and [alpha], included). *)
Theorem init_stores_resolved_parameters {F : Type} `{Numeric F}
    `{NumericExp F} (normal : ndarray F) (b : agent F) (sh : list nat)
    (params : gmap string F) :
  (let r := GHS.init_stepsize b sh params in
   snd r !! "ghs_a" = Some (GHS.ghs_param (fst r)))
  /\ (let r := McClains.init_stepsize b sh params in
      snd r !! "mcclain_a" = Some (McClains.mcclain_param (fst r)))
  /\ (let r := STC.init_stepsize b sh params in
      snd r !! "stc_c" = Some (STC.stc_c (fst r))
      /\ snd r !! "stc_N" = Some (STC.stc_N (fst r)))
  /\ (let r := RProp.init_stepsize b sh params in
      snd r !! "rprop_eta_low" = Some (RProp.eta_low (fst r))
      /\ snd r !! "rprop_eta_high" = Some (RProp.eta_high (fst r)))
  /\ (let r := Autostep.init_stepsize b sh params in
      snd r !! "autostep_mu" = Some (Autostep.mu (fst r))
      /\ snd r !! "autostep_tau" = Some (Autostep.tau (fst r)))
  /\ (let r := AdagradFull.init_stepsize b sh params in
      exists p, snd r !! "adagrad_precond" = Some p
                /\ AdagradFull.h (fst r)
                   = AdagradFull.eye_times
                       (length (data (AdagradFull.step_sizes (fst r)))) p)
  /\ (let r := AlmeidaAdaptive.init_stepsize b sh params in
      snd r !! "almeida_gamma"
        = Some (AlmeidaAdaptive.almeida_gamma (fst r))
      /\ snd r !! "almeida_stepsize"
         = Some (AlmeidaAdaptive.almeida_stepsize (fst r)))
  /\ (let r := vSGD.init_stepsize b sh params in
      (exists m, snd r !! "vsgd_initmeta" = Some m
                 /\ vSGD.t (fst r) = ascale (ones sh) m)
      /\ snd r !! "vsgd_slowstart" = Some (vSGD.slow_start (fst r)))
  /\ (let r := InvMaxEigen.init_stepsize normal b sh params in
      snd r !! "lecun_gamma" = Some (InvMaxEigen.lecun_gamma (fst r))
      /\ snd r !! "lecun_alpha" = Some (InvMaxEigen.lecun_alpha (fst r))
      /\ snd r !! "lecun_threshold"
         = Some (InvMaxEigen.stability_threshold (fst r))).
Proof.
  split; [|split; [apply mcclains_init_stored|]];
  unfold GHS.init_stepsize, STC.init_stepsize, RProp.init_stepsize,
    Autostep.init_stepsize, AdagradFull.init_stepsize,
    AlmeidaAdaptive.init_stepsize, vSGD.init_stepsize,
    InvMaxEigen.init_stepsize;
  cbv zeta; repeat split; split_setdefault;
    cbn [GHS.ghs_param STC.stc_c STC.stc_N RProp.eta_low RProp.eta_high
         Autostep.mu Autostep.tau AdagradFull.h AdagradFull.step_sizes
         AlmeidaAdaptive.almeida_gamma AlmeidaAdaptive.almeida_stepsize
         vSGD.t vSGD.slow_start InvMaxEigen.lecun_gamma
         InvMaxEigen.lecun_alpha InvMaxEigen.stability_threshold];
    try (eexists; split; [|reflexivity]);
    repeat (first [eassumption
                  | eapply lookup_weaken; [|eassumption]]).
Qed.

Lemma mcclains_init_other {F : Type} `{Numeric F} (b : agent F)
    (sh : list nat) (params : gmap string F) (k : string) :
  k <> "mcclain_a" ->
  snd (McClains.init_stepsize b sh params) !! k = params !! k.
Proof.
  intros Hk. unfold McClains.init_stepsize.
  pose proof (setdefault_other "mcclain_a" k (lit 1 100) params
                ltac:(done)) as H1.
  destruct (setdefault "mcclain_a" (lit 1 100) params) as [m p].
  cbn [snd] in H1.
  destruct (nltb (alpha b) m).
  - pose proof (setdefault_other "mcclain_a" k (lit 1 100) p
                  ltac:(done)) as H2.
    destruct (setdefault "mcclain_a" (lit 1 100) p) as [m' p'].
    cbn [snd] in H2.
    pose proof (setdefault_other "mcclain_a" k (lit 1 100)
                  (<["mcclain_a" := alpha b]> p') ltac:(done)) as H3.
    destruct (setdefault "mcclain_a" (lit 1 100) _) as [m'' p''].
    cbn [snd] in *. rewrite H3, lookup_insert_ne by done. congruence.
  - pose proof (setdefault_other "mcclain_a" k (lit 1 100) p
                  ltac:(done)) as H2.
    destruct (setdefault "mcclain_a" (lit 1 100) p) as [m' p'].
    cbn [snd] in *. congruence.
Qed.

(** X8. McClains' [init_stepsize] puts [alpha] and [mcclain_a] in order:
    for a finite [alpha = x] and a finite resolved [mcclain_a = y] (the
    supplied entry or the default 0.01) the instance starts with
    [alpha = max x y] in every step size and [mcclain_a = min x y], the
    dictionary holds [min x y] under ['mcclain_a'] (so a supplied entry
    larger than [alpha] is replaced), and no other entry changes. *)
Theorem mcclains_init_orders (b : agent xreal) sh params (x y : R) :
  alpha b = Fin x ->
  default (lit 1 100) (params !! "mcclain_a") = Fin y ->
  let r := McClains.init_stepsize b sh params in
  alpha (McClains.base (fst r)) = Fin (Rmax x y)
  /\ McClains.step_sizes (fst r) = full sh (Fin (Rmax x y))
  /\ McClains.mcclain_param (fst r) = Fin (Rmin x y)
  /\ snd r !! "mcclain_a" = Some (Fin (Rmin x y))
  /\ forall k, k <> "mcclain_a" -> snd r !! k = params !! k.
Proof.
  intros Hx Hy r.
  destruct (mcclains_init_resolved b sh params x y Hx Hy) as [Ea Em].
  fold r in Ea, Em.
  split; [done|]. split; [|split; [done|split]].
  - destruct (mcclains_init_shape b sh params) as (b' & m & E).
    fold r in E. rewrite E in Ea |- *.
    cbn [McClains.base McClains.step_sizes] in *. by rewrite Ea.
  - unfold r in *. by rewrite mcclains_init_stored, Em.
  - intros k Hk. by apply mcclains_init_other.
Qed.

Lemma mcclains_init_orders_witness :
  let z := lift [2%nat] [0; 0]%R in
  let b := Agent (Fin (1 / 10)) (Fin 1) z z in
  let params : gmap string xreal := {["mcclain_a" := Fin (1 / 2)]} in
  let r := McClains.init_stepsize b [2%nat] params in
  alpha (McClains.base (fst r)) = Fin (Rmax (1 / 10) (1 / 2))
  /\ snd r !! "mcclain_a" = Some (Fin (Rmin (1 / 10) (1 / 2))).
Proof.
  intros z b params r.
  pose proof (mcclains_init_orders b [2%nat] params (1 / 10) (1 / 2)
                eq_refl ltac:(by unfold params; rewrite lookup_singleton_eq))
    as H.
  exact (conj (proj1 H) (proj1 (proj2 (proj2 (proj2 H))))).
Defined.


(** ** [randomize_parameters] *)

Lemma resolve_eq {F} (k : string) (d : F) (args : gmap string F)
    (w : world F) :
  resolve k d args w
  = (default d (args !! k), snd (setdefault k d args),
     World (<[k := default d (args !! k)]> (self_params w)) (self_alpha w)
           (random w) (randint w) (drawn w)).
Proof. unfold resolve, setdefault. by destruct (args !! k). Qed.

(** Runs the [randomize_parameters] of a strategy class symbolically. *)
Ltac run_randomize :=
  cbn [randomize_parameters fst snd
       Fixed_class GHS_class McClains_class STC_class RProp_class
       Autostep_class AlphaBounds_class AdagradFull_class
       AdagradDiagonal_class Almeida_class vSGD_class InvMaxEigen_class
       no_parameters];
  unfold draw, draw_int;
  repeat (rewrite resolve_eq;
          cbn [self_params self_alpha random randint drawn fst snd]);
  rewrite ?setdefault_other by done.

(** Looks an entry up after the stores of a [randomize_parameters]. *)
Ltac lookup_stored :=
  repeat first [rewrite lookup_insert_eq
               |rewrite lookup_insert_ne by done].

(** X9. "Named parameters to fix, which will not be randomly
    generated": for each of the twelve strategies [randomize_parameters]
    returns the entries of [self.params] under the class's keys in the
    documented order, stores a supplied keyword argument unchanged under
    its key, and changes no other entry of [self.params]; for every
    scalar type and every state of the generator. *)
Theorem randomize_honours_fixed_parameters {F : Type} `{Numeric F} :
  Forall (fun ck => honours_fixed (fst ck) (snd ck))
         (strategy_keys (F := F))
  /\ map fst (strategy_keys (F := F)) = strategies.
Proof.
  split; [|done].
  unfold strategy_keys.
  repeat first [apply List.Forall_nil | apply List.Forall_cons];
    intros args w r; unfold r; cbn [fst snd];
    run_randomize; cbn [map]; lookup_stored;
    (split; [done|]); (split; [|intros k Hk; rewrite ?not_elem_of_cons in Hk;
                                 destruct_and?; by lookup_stored]);
    intros k v Hk Ek; rewrite ?elem_of_cons in Hk;
    destruct_or?; subst; lookup_stored; rewrite ?Ek; try done;
    by apply elem_of_nil in Hk.
Qed.

(** X10. Fixing a parameter does not change how far the random generator
    advances: the default of [args.setdefault] is evaluated before the
    call, so every strategy draws exactly once per returned parameter
    whatever keyword arguments are given, and [self.alpha] is not
    touched; for every scalar type. *)
Theorem randomize_draws_once_per_parameter {F : Type} `{Numeric F} :
  Forall draws_per_parameter (strategies (F := F)).
Proof.
  unfold strategies.
  repeat first [apply List.Forall_nil | apply List.Forall_cons];
    intros args w r; unfold r; run_randomize; cbn [length];
    (split; [lia | done]).
Qed.

(** X11. "Will always be in the same order": for every strategy and
    every agent class, the list the composed class returns is the agent
    class's list followed by one value per key of the strategy, and the
    generator is advanced past the agent's draws by that number, whatever
    keyword arguments are given; for every scalar type. *)
Theorem composed_parameter_list_layout {F : Type} `{Numeric F} :
  Forall (fun ck =>
            forall (ac : pyclass F) (args : gmap string F) (w : world F),
              let ra := randomize_parameters ac args w in
              let r := randomize_parameters
                         (genAdaptiveAgent (fst ck) ac) args w in
              exists more,
                fst r = fst ra ++ more
                /\ length more = length (snd ck)
                /\ drawn (snd r) = (drawn (snd ra) + length (snd ck))%nat)
         (strategy_keys (F := F)).
Proof.
  unfold strategy_keys.
  repeat first [apply List.Forall_nil | apply List.Forall_cons];
    intros ac args w; unfold genAdaptiveAgent;
    cbn [randomize_parameters fst snd];
    destruct (randomize_parameters ac args w) as [la wa];
    run_randomize; eexists; (split; [done|]); cbn [length];
    (split; [done | lia]).
Qed.

(** X12. RProp's random parameters come out in order: when
    [rprop_eta_low] is not fixed and [rprop_eta_high] is either drawn or
    fixed to a value that is not negative, [randomize_parameters] returns
    [[eta_low, eta_high]] with [0 <= eta_low <= eta_high], the drawn
    [eta_high] being below [2]. *)
Theorem rprop_randomized_in_order (args : gmap string xreal)
    (w : world xreal) :
  unit_draws w -> args !! "rprop_eta_low" = None ->
  (forall v, args !! "rprop_eta_high" = Some v ->
             exists h, v = Fin h /\ (0 <= h)%R) ->
  exists lo hi,
    fst (randomize_parameters RProp_class args w) = [Fin lo; Fin hi]
    /\ (0 <= lo <= hi)%R
    /\ (args !! "rprop_eta_high" = None -> (hi < 2)%R).
Proof.
  intros Hw Hlo Hhi. run_randomize. rewrite Hlo. cbn [default].
  destruct (Hw (drawn w)) as (r1 & E1 & H1).
  destruct (Hw (S (drawn w))) as (r2 & E2 & H2). rewrite E1, E2.
  destruct (args !! "rprop_eta_high") as [v|] eqn:E; cbn [default].
  - destruct (Hhi v eq_refl) as (h & -> & Hh). xred.
    exists (r2 * h)%R, h. split; [done|]. split; [nra | done].
  - xred. exists (r2 * (r1 * 2))%R, (r1 * 2)%R.
    split; [done|]. split; [nra | intros _; lra].
Qed.

Lemma rprop_randomized_in_order_witness :
  let w := World (∅ : gmap string xreal) (Fin (1 / 10))
                 (fun _ => Fin (1 / 2)) (fun _ _ => 0%Z) 0 in
  exists lo hi,
    fst (randomize_parameters RProp_class ∅ w) = [Fin lo; Fin hi]
    /\ (0 <= lo <= hi)%R.
Proof.
  intros w.
  destruct (rprop_randomized_in_order ∅ w) as (lo & hi & E & Hle & _).
  - intros n. exists (1 / 2)%R. split; [done | lra].
  - done.
  - intros v Hv. by rewrite lookup_empty in Hv.
  - by exists lo, hi.
Defined.

(** X13. A McClains parameter that was drawn needs no exchange: when
    [mcclain_a] is not fixed and [alpha >= 0], [randomize_parameters]
    stores [random() * alpha], which is at most [alpha], so an
    [init_stepsize] on the parameters it leaves keeps [alpha] and works
    with the stored [mcclain_a], the value the call returned. *)
Theorem mcclains_randomized_needs_no_exchange (b : agent xreal) sh
    (args : gmap string xreal) (w : world xreal) (a : R) :
  unit_draws w -> args !! "mcclain_a" = None ->
  self_alpha w = Fin a -> alpha b = Fin a -> (0 <= a)%R ->
  let r := randomize_parameters McClains_class args w in
  let s0 := fst (McClains.init_stepsize b sh (self_params (snd r))) in
  alpha (McClains.base s0) = Fin a
  /\ fst r = [McClains.mcclain_param s0]
  /\ exists m, McClains.mcclain_param s0 = Fin m /\ (0 <= m <= a)%R.
Proof.
  intros Hw Hargs Hsa Hb Ha r s0.
  destruct (Hw (drawn w)) as (r1 & E1 & H1).
  assert (Er : r = ([Fin (r1 * a)],
                    World (<["mcclain_a" := Fin (r1 * a)]> (self_params w))
                          (Fin a) (random w) (randint w) (S (drawn w)))).
  { unfold r. run_randomize. by rewrite Hargs, E1, Hsa. }
  assert (Hm : (0 <= r1 * a <= a)%R) by nra.
  destruct (mcclains_init_resolved b sh (self_params (snd r)) a (r1 * a) Hb)
    as [Ea Em].
  { rewrite Er. cbn [snd self_params]. by rewrite lookup_insert_eq. }
  fold s0 in Ea, Em.
  rewrite Rmax_left in Ea by lra. rewrite Rmin_right in Em by lra.
  split; [done|]. split; [by rewrite Em, Er|]. by exists (r1 * a)%R.
Qed.

Lemma mcclains_randomized_needs_no_exchange_witness :
  let z := lift [2%nat] [0; 0]%R in
  let b := Agent (Fin (1 / 10)) (Fin 1) z z in
  let w := World (∅ : gmap string xreal) (Fin (1 / 10))
                 (fun _ => Fin (1 / 2)) (fun _ _ => 0%Z) 0 in
  let r := randomize_parameters McClains_class ∅ w in
  alpha (McClains.base
           (fst (McClains.init_stepsize b [2%nat] (self_params (snd r)))))
  = Fin (1 / 10).
Proof.
  intros z b w r.
  refine (proj1 (mcclains_randomized_needs_no_exchange b [2%nat] ∅ w (1 / 10)
                   _ eq_refl eq_refl eq_refl _)).
  - intros n. exists (1 / 2)%R. split; [done | lra].
  - lra.
Defined.


(** ** vSGD: the shape of the update *)

Lemma vsgd_shapes_call {F : Type} `{Numeric F} sh (s : vSGD.self F) inp :
  vsgd_shapes sh s -> shaped_inputs sh inp ->
  vsgd_shapes sh (fst (call vSGD.rescale_update s inp))
  /\ has_shape sh (snd (call vSGD.rescale_update s inp)).
Proof.
  intros (Hg & Hv & Hh & Ht) (Hpt & Hptp & Hd).
  assert (Hinv : has_shape sh (vSGD.inv_t s)) by (by apply has_shape_amap).
  assert (Hdec : has_shape sh (vSGD.decay s)) by (by apply has_shape_amap).
  unfold call, vSGD.rescale_update. cbn [fst snd].
  assert (Hest : has_shape sh
            (asq (asub (scale (gamma (vSGD.base s)) (phi_tp inp))
                       (phi_t inp)))).
  { apply has_shape_amap, has_shape_amap2; [|done].
    by apply has_shape_amap. }
  assert (Hd2 : has_shape sh (asq (descent_direction inp)))
    by (by apply has_shape_amap).
  split.
  - unfold vsgd_shapes. cbn [vSGD.g vSGD.v vSGD.h vSGD.t].
    split; [|split; [|split]];
      try (apply has_shape_amap2; by apply has_shape_amap2).
    destruct (nleb _ _); [|done].
    apply has_shape_amap, has_shape_amap2; [done|].
    apply has_shape_amap, has_shape_amap2.
    + apply has_shape_amap. apply has_shape_amap2; by apply has_shape_amap2.
    + apply has_shape_amap2; by apply has_shape_amap2.
  - apply has_shape_amap2; [|done].
    apply has_shape_amap, has_shape_amap2.
    + apply has_shape_amap. apply has_shape_amap2; by apply has_shape_amap2.
    + apply has_shape_amap, has_shape_amap2;
        apply has_shape_amap2; by apply has_shape_amap2.
Qed.

Lemma vsgd_shapes_run {F : Type} `{Numeric F} sh (s : vSGD.self F) cs :
  vsgd_shapes sh s -> Forall (shaped_inputs sh) cs ->
  vsgd_shapes sh (fst (run (call vSGD.rescale_update) s cs))
  /\ Forall (has_shape sh) (snd (run (call vSGD.rescale_update) s cs)).
Proof.
  intros Hs Hcs. revert s Hs.
  induction Hcs as [|inp cs Hi _ IH]; intros s Hs; [done|].
  cbn [run]. destruct (vsgd_shapes_call sh s inp Hs Hi) as [Hs1 Ho].
  destruct (call vSGD.rescale_update s inp) as [s1 o]. cbn [fst snd] in *.
  specialize (IH s1 Hs1).
  destruct (run _ s1 cs) as [s' outs]. cbn [fst snd] in *.
  destruct IH as [IH1 IH2]. split; [done|]. by constructor.
Qed.

(** X16. The shape of a vSGD update does not depend on the values: for
    every scalar type (binary64 included, where entries can become NaN)
    and every call sequence whose features and descent directions have
    the weights' shape, every returned update has the weights' shape,
    before and after the slow start. *)
Theorem vsgd_update_shape {F : Type} `{Numeric F} (b : agent F) sh
    (params : gmap string F) cs :
  Forall (shaped_inputs sh) cs ->
  Forall (has_shape sh)
         (snd (run (call vSGD.rescale_update)
                   (fst (vSGD.init_stepsize b sh params)) cs)).
Proof.
  intros Hcs. apply vsgd_shapes_run; [|done].
  unfold vSGD.init_stepsize.
  destruct (setdefault "vsgd_initmeta" _ params) as [m p1].
  destruct (setdefault "vsgd_slowstart" _ p1) as [l p2].
  unfold vsgd_shapes. cbn [fst vSGD.g vSGD.v vSGD.h vSGD.t].
  repeat split; try apply length_replicate.
  cbn [ascale amap data ones full]. by rewrite length_map, length_replicate.
Qed.

Lemma vsgd_update_shape_witness :
  let z := lift [2%nat] [0; 0]%R in
  let inp := fun x y : R =>
    Inputs (lift [2%nat] [1; 0]%R) z (Fin 1) (Fin 1) (lift [2%nat] [x; y]) in
  let b := Agent (Fin (1 / 10)) (Fin 1) z z in
  let cs := [inp 1 0; inp 0 0; inp 3 4]%R in
  Forall (has_shape [2%nat])
    (snd (run (call vSGD.rescale_update)
              (fst (vSGD.init_stepsize b [2%nat] ∅)) cs)).
Proof.
  intros z inp b cs. apply (vsgd_update_shape b [2%nat] ∅ cs).
  repeat constructor.
Defined.


(** ** vSGD: the step sizes are clipped at 1 *)

Lemma b64_min_one (y : float) :
  PrimFloat.is_nan (fmin y 1) = true \/ PrimFloat.leb (fmin y 1) 1 = true.
Proof.
  unfold fmin. destruct (PrimFloat.is_nan y) eqn:Ey; [by left|].
  change (PrimFloat.is_nan 1) with false. cbv iota.
  destruct (PrimFloat.leb y 1) eqn:E; right; [done|].
  by apply b64_leb_refl.
Qed.

(** X4. vSGD clips its step sizes: on binary64, after every call, from
    every instance and with every argument (infinite and NaN ones
    included), each stored step size is at most 1 or is a NaN; it is
    never [+inf]. *)
Theorem vsgd_step_sizes_clipped (s : vSGD.self float) (c : inputs float) :
  Forall (fun st => PrimFloat.is_nan st = true
                    \/ PrimFloat.leb st 1 = true)
         (data (vSGD.step_sizes (fst (call vSGD.rescale_update s c)))).
Proof.
  unfold call, vSGD.rescale_update. cbn [fst vSGD.step_sizes].
  unfold amap at 1. cbn [data]. apply Forall_fmap, Forall_true.
  intros y. apply b64_min_one.
Qed.
